(** * Sopel protocol core: a shallow embedding and its checked properties

    The development covers [sopel/tools/calculation.py] (the sandboxed
    arithmetic evaluator), [sopel/tools/_batch.py] and the session controller
    [sopel/irc/__init__.py] (class [AbstractBot]).

    Conventions.
    - A Python [str] is represented by the [string] holding its UTF-8
      encoding, so [len(s.encode('utf-8'))] is the number of bytes and
      [len(s)] the number of code points (bytes that are not continuation
      bytes).  Strings with lone surrogates, which Python cannot encode,
      have no representation.
    - Wall-clock readings ([time.time()], [datetime.utcnow()]) are supplied
      by the environment: the n-th reading of a run is [readings n].  Time
      values are rationals, as every float is.  The sum of floats that gives
      the evaluator its deadline is left to the Python runtime, rounding
      included; the differences of readings in the session controller are
      taken exactly.
    - Recursion in Python is bounded by the interpreter: the evaluator
      carries the number of frames it may still use and raises
      [RecursionError] when there is none.
    - Python code runs in a state-and-exception monad; [os._exit] is a third
      outcome that, like a raise, skips the rest of the computation.  What
      a method does to the outside (backend calls, dispatches, log records,
      sleeps) is appended to a trace, in order.
    - One thread runs at a time; locks are not modelled. *)

From Stdlib Require Import ZArith QArith Qround Qminmax Floats Ascii Lia Lqa.
From stdpp Require Import base option list gmap strings.

#[local] Set Warnings "-inexact-float,-register-all".

Local Open Scope Z_scope.

(** ** States, exceptions and outcomes *)

(** The exception classes raised by the modelled code or by the Python
    primitives it calls.  Messages are kept where the source writes them. *)
Inductive exception : Type :=
  | RuntimeError (msg : string)
  | Exception (msg : string)
  | ExpressionEvaluatorError (msg : string)
  | ValueError (msg : string)
  | SyntaxError
  | ZeroDivisionError
  | OverflowError
  | TypeError
  | KeyError (key : string)
  | IndexError
  | RecursionError
  | NameError (name : string)
  | OtherError (cls : string).

(** The result of a function that touches no state: a value or a raise. *)
Inductive result (A : Type) : Type :=
  | Ok (a : A)
  | Err (e : exception).
Arguments Ok {A} a.
Arguments Err {A} e.

Definition rbind {A B} (r : result A) (k : A -> result B) : result B :=
  match r with
  | Ok a => k a
  | Err e => Err e
  end.

(** The outcome of a computation on a state: a value, a raise, or the end of
    the process by [os._exit]. *)
Inductive outcome (A : Type) : Type :=
  | Return (a : A)
  | Raise (e : exception)
  | Exit (code : Z).
Arguments Return {A} a.
Arguments Raise {A} e.
Arguments Exit {A} code.

(** A computation over a state of type [S]. *)
Definition M (S A : Type) : Type := S -> outcome A * S.

Definition ret {S A} (a : A) : M S A := fun s => (Return a, s).

Definition bind {S A B} (m : M S A) (k : A -> M S B) : M S B :=
  fun s =>
    match m s with
    | (Return a, s') => k a s'
    | (Raise e, s') => (Raise e, s')
    | (Exit c, s') => (Exit c, s')
    end.

Definition raise {S A} (e : exception) : M S A := fun s => (Raise e, s).
Definition os_exit {S A} (code : Z) : M S A := fun s => (Exit code, s).
Definition lift {S A} (r : result A) : M S A :=
  fun s => (match r with Ok a => Return a | Err e => Raise e end, s).

Declare Scope py_scope.
Delimit Scope py_scope with py.
Notation "'do' x <- m ; k" := (bind m (fun x => k))
  (at level 10, x name, m at level 100, k at level 200) : py_scope.
Local Open Scope py_scope.

Notation "'let!' x := o 'in' k" := (rbind o (fun x => k))
  (at level 10, x name, o at level 100, k at level 200) : py_scope.

(** ** The wall clock *)

Record Clock : Type := mkClock {
  readings : nat -> Q;   (* what the n-th reading returns *)
  reads : nat            (* how many readings were taken *)
}.

(** [time.time()]: take the next reading. *)
Definition time_time : M Clock Q :=
  fun c => (Return (readings c (reads c)), mkClock (readings c) (S (reads c))).

(** ** Python strings *)

Module Str.

(** A UTF-8 continuation byte is 10xxxxxx. *)
Definition is_continuation (a : ascii) : bool :=
  match a with
  | Ascii _ _ _ _ _ _ b6 b7 => b7 && negb b6
  end.

(** [len(s)]: the number of code points. *)
Fixpoint len (s : string) : Z :=
  match s with
  | EmptyString => 0
  | String a s' => (if is_continuation a then 0 else 1) + len s'
  end.

(** [len(s.encode('utf-8'))]: the number of bytes. *)
Definition encoded_len (s : string) : Z := Z.of_nat (String.length s).

(** The continuation bytes that start [s], and what follows them. *)
Fixpoint span_continuation (s : string) : string * string :=
  match s with
  | String a s' =>
      if is_continuation a
      then let '(c, r) := span_continuation s' in (String a c, r)
      else (EmptyString, s)
  | EmptyString => (EmptyString, EmptyString)
  end.

(** [s[0]]: the first code point; [IndexError] on the empty string. *)
Definition first (s : string) : result string :=
  match s with
  | EmptyString => Err IndexError
  | String a s' => Ok (String a (fst (span_continuation s')))
  end.

(** [s[1:]]: everything after the first code point. *)
Definition rest (s : string) : string :=
  match s with
  | EmptyString => EmptyString
  | String a s' => snd (span_continuation s')
  end.

(** [s.replace(c, '')] for a one-byte [c]. *)
Fixpoint remove_byte (c : ascii) (s : string) : string :=
  match s with
  | EmptyString => EmptyString
  | String a s' =>
      if Ascii.eqb a c then remove_byte c s' else String a (remove_byte c s')
  end.

(** ['x' * n] for a one-byte character. *)
Fixpoint repeat (a : ascii) (n : nat) : string :=
  match n with
  | O => EmptyString
  | S n' => String a (repeat a n')
  end.

(** [s[:n]] and [s[n:]] counted in bytes. *)
Fixpoint take_bytes (n : nat) (s : string) : string :=
  match n, s with
  | S n', String a s' => String a (take_bytes n' s')
  | _, _ => EmptyString
  end.

Fixpoint drop_bytes (n : nat) (s : string) : string :=
  match n, s with
  | S n', String _ s' => drop_bytes n' s'
  | _, _ => s
  end.

End Str.

(** ** [sopel/tools/calculation.py] *)

Module Calculation.

(** The values an [ast.Constant] can hold. *)
Inductive constant : Type :=
  | CInt (z : Z)
  | CBool (b : bool)
  | CFloat (f : float)
  | CComplex (re im : float)
  | CStr (s : string)
  | CBytes (s : string)
  | CNone
  | CEllipsis.

(** [ast.operator] and [ast.unaryop]. *)
Inductive operator : Type :=
  | Add | Sub | Mult | MatMult | Div | Mod | Pow
  | LShift | RShift | BitOr | BitXor | BitAnd | FloorDiv.

Inductive unaryop : Type := Invert | Not | UAdd | USub.

(** Expression nodes of [ast].  The evaluator looks inside [Constant],
    [BinOp] and [UnaryOp] only; the remaining node classes are kept with
    their class name. *)
Inductive node : Type :=
  | Constant (value : constant)
  | BinOp (left : node) (op : operator) (right : node)
  | UnaryOp (op : unaryop) (operand : node)
  | Name (id : string)
  | Call (func : node) (args : list node)
  | Attribute (value : node) (attr : string)
  | Subscript (value slice : node)
  | OtherNode (class_name : string) (children : list node).

(** The numbers the evaluator computes with. *)
Inductive value : Type :=
  | VInt (z : Z)
  | VBool (b : bool)
  | VFloat (f : float)
  | VComplex (re im : float).

(** [isinstance(v, int)]; [bool] is a subclass of [int]. *)
Definition as_int (v : value) : option Z :=
  match v with
  | VInt z => Some z
  | VBool b => Some (Z.b2z b)
  | _ => None
  end.

(** [type(node.value).__name__] *)
Definition constant_type_name (c : constant) : string :=
  match c with
  | CInt _ => "int" | CBool _ => "bool" | CFloat _ => "float"
  | CComplex _ _ => "complex" | CStr _ => "str" | CBytes _ => "bytes"
  | CNone => "NoneType" | CEllipsis => "ellipsis"
  end.

Definition operator_name (op : operator) : string :=
  match op with
  | Add => "Add" | Sub => "Sub" | Mult => "Mult" | MatMult => "MatMult"
  | Div => "Div" | Mod => "Mod" | Pow => "Pow" | LShift => "LShift"
  | RShift => "RShift" | BitOr => "BitOr" | BitXor => "BitXor"
  | BitAnd => "BitAnd" | FloorDiv => "FloorDiv"
  end.

Definition unaryop_name (op : unaryop) : string :=
  match op with
  | Invert => "Invert" | Not => "Not" | UAdd => "UAdd" | USub => "USub"
  end.

Definition node_type_name (n : node) : string :=
  match n with
  | Constant _ => "Constant" | BinOp _ _ _ => "BinOp"
  | UnaryOp _ _ => "UnaryOp" | Name _ => "Name" | Call _ _ => "Call"
  | Attribute _ _ => "Attribute" | Subscript _ _ => "Subscript"
  | OtherNode c _ => c
  end.

(** [int.bit_length()] *)
Definition bit_length (z : Z) : Z :=
  if Z.eqb z 0 then 0 else Z.log2 (Z.abs z) + 1.

Definition isSome {A} (o : option A) : bool :=
  match o with Some _ => true | None => false end.

(** [x in (0, 1)] *)
Definition in_0_1 (z : Z) : bool := Z.eqb z 0 || Z.eqb z 1.

(** What the code takes from the Python runtime: the parser [ast.parse],
    the arithmetic of the [operator] module on numbers of any of the four
    kinds, the addition of floats, and the depth of recursion that the
    interpreter allows.  The parser and the arithmetic may raise.  The laws
    record the facts about CPython that the examples below rely on, and that
    the first call of [_eval_node] finds a frame. *)
Class PythonRuntime : Type := {
  ast_parse : string -> result node;
  operator_add : value -> value -> result value;
  operator_sub : value -> value -> result value;
  operator_mul : value -> value -> result value;
  operator_truediv : value -> value -> result value;
  operator_pow : value -> value -> result value;
  operator_mod : value -> value -> result value;
  operator_floordiv : value -> value -> result value;
  operator_neg : value -> result value;
  operator_pos : value -> result value;
  operator_lt : value -> value -> result bool;
  (* [a + b] on floats, rounding included *)
  float_add : Q -> Q -> Q;
  (* the calls of [_eval_node] that can be nested, the one made by
     [__call__] included, before the interpreter raises RecursionError *)
  recursion_limit : nat;
  add_int : forall a b,
    operator_add (VInt a) (VInt b) = Ok (VInt (a + b));
  mul_int : forall a b,
    operator_mul (VInt a) (VInt b) = Ok (VInt (a * b));
  truediv_int_zero : forall a,
    operator_truediv (VInt a) (VInt 0) = Err ZeroDivisionError;
  recursion_limit_pos : (0 < recursion_limit)%nat
}.

Section Evaluators.
Context `{RT : PythonRuntime}.

Definition binary_function : Type := value -> value -> result value.
Definition unary_function : Type := value -> result value.

(** class ExpressionEvaluator: the two operator tables. *)
Record ExpressionEvaluator : Type := {
  binary_ops : operator -> option binary_function;
  unary_ops : unaryop -> option unary_function
}.

(** ExpressionEvaluator._eval_node, with [frames] calls still allowed on
    the stack: the call itself takes one, and each recursive call runs with
    what is left.  The frames that the operator functions take for
    themselves are not counted. *)
Fixpoint _eval_node_at (frames : nat) (self : ExpressionEvaluator) (n : node)
    (timeout : Q) : M Clock value :=
  match frames with
  | O => raise RecursionError
  | S frames =>
      match n with
      | Constant c =>
          match c with
          | CInt z => ret (VInt z)
          | CBool b => ret (VBool b)
          | CFloat f => ret (VFloat f)
          | _ => raise (ExpressionEvaluatorError
                   ("'" +:+ constant_type_name c +:+ "' values are not supported"))
          end
      | BinOp l op r =>
          match binary_ops self op with
          | None => raise (ExpressionEvaluatorError
                      ("Unsupported binary operator '" +:+ operator_name op +:+ "'"))
          | Some f =>
              do left <- _eval_node_at frames self l timeout;
              do right <- _eval_node_at frames self r timeout;
              do now <- time_time;
              if Qle_bool now timeout
              then lift (f left right)
              else raise (ExpressionEvaluatorError
                     "Time for evaluating expression ran out.")
          end
      | UnaryOp op e =>
          match unary_ops self op with
          | None => raise (ExpressionEvaluatorError
                      ("Unsupported unary operator '" +:+ unaryop_name op +:+ "'"))
          | Some f =>
              do operand <- _eval_node_at frames self e timeout;
              do now <- time_time;
              if Qle_bool now timeout
              then lift (f operand)
              else raise (ExpressionEvaluatorError
                     "Time for evaluating expression ran out.")
          end
      | _ => raise (ExpressionEvaluatorError
               ("Node type '" +:+ node_type_name n +:+ "' is not supported."))
      end
  end.

(** The call of [_eval_node] that [__call__] makes. *)
Definition _eval_node (self : ExpressionEvaluator) (n : node) (timeout : Q)
  : M Clock value :=
  _eval_node_at recursion_limit self n timeout.

(** ExpressionEvaluator.__call__ *)
Definition ExpressionEvaluator_call (self : ExpressionEvaluator)
    (expression_str : string) (timeout : Q) : M Clock value :=
  do body <- lift (ast_parse expression_str);
  do now <- time_time;
  _eval_node self body (float_add now timeout).

(** guarded_mul *)
Definition guarded_mul (left right : value) : result value :=
  match as_int left, as_int right with
  | Some l, Some r =>
      if in_0_1 l || in_0_1 r then operator_mul left right
      else if bit_length l + bit_length r >? 664386
      then Err (ValueError
             "Value is too large to be handled in limited time and memory.")
      else operator_mul left right
  | _, _ => operator_mul left right
  end.

(** pow_complexity *)
Definition pow_complexity (num exp : Z) : result value :=
  if in_0_1 num || in_0_1 exp then Ok (VInt 0)
  else if Z.land num (num - 1) =? 0 then
    let! a := operator_pow (VInt exp) (VFloat 1.092) in
    let! b := operator_pow (VInt (bit_length num)) (VFloat 1.65) in
    let! c := operator_mul a b in
    operator_truediv c (VFloat 623212911.121)
  else
    let! a := operator_pow (VInt exp) (VFloat 1.590) in
    let! b := operator_pow (VInt (bit_length num)) (VFloat 1.73) in
    let! c := operator_mul a b in
    operator_truediv c (VFloat 36864057619.3).

(** guarded_pow *)
Definition guarded_pow (num exp : value) : result value :=
  match as_int num, as_int exp with
  | Some n, Some e =>
      let! c := pow_complexity n e in
      let! small := operator_lt c (VFloat 0.5) in
      if (small : bool) then operator_pow num exp
      else Err (ValueError "Pow expression too complex to calculate.")
  | _, _ => operator_pow num exp
  end.

(** EquationEvaluator.__bin_ops and __unary_ops *)
Definition EquationEvaluator_bin_ops (op : operator)
  : option binary_function :=
  match op with
  | Add => Some operator_add
  | Sub => Some operator_sub
  | Mult => Some guarded_mul
  | Div => Some operator_truediv
  | Pow => Some guarded_pow
  | Mod => Some operator_mod
  | FloorDiv => Some operator_floordiv
  | BitXor => Some guarded_pow
  | _ => None
  end.

Definition EquationEvaluator_unary_ops (op : unaryop)
  : option unary_function :=
  match op with
  | USub => Some operator_neg
  | UAdd => Some operator_pos
  | _ => None
  end.

(** EquationEvaluator.__init__ *)
Definition EquationEvaluator : ExpressionEvaluator :=
  {| binary_ops := EquationEvaluator_bin_ops;
     unary_ops := EquationEvaluator_unary_ops |}.

(** eval_equation = EquationEvaluator(); the call
    [eval_equation(equation, timeout)] with [timeout] defaulting to 5.0. *)
Definition eval_equation (equation : string) (timeout : Q)
  : M Clock value :=
  ExpressionEvaluator_call EquationEvaluator equation timeout.

(** The constructs the evaluator has a handler for: numeric constants,
    the eight binary operators and the two unary operators. *)
Fixpoint permitted (n : node) : bool :=
  match n with
  | Constant (CInt _) | Constant (CBool _) | Constant (CFloat _) => true
  | BinOp l op r =>
      isSome (EquationEvaluator_bin_ops op) && permitted l && permitted r
  | UnaryOp op e =>
      isSome (EquationEvaluator_unary_ops op) && permitted e
  | _ => false
  end.

(** An [ExpressionEvaluator.Error], whatever its message. *)
Definition is_evaluator_error (e : exception) : Prop :=
  exists msg, e = ExpressionEvaluatorError msg.

(** The calls of [_eval_node] that the evaluation of a node nests. *)
Fixpoint depth (n : node) : nat :=
  match n with
  | BinOp l _ r => S (Nat.max (depth l) (depth r))
  | UnaryOp _ e => S (depth e)
  | _ => 1
  end.

(** [BinOp] and [UnaryOp], the nodes whose evaluation applies a function. *)
Definition is_operation (n : node) : bool :=
  match n with
  | BinOp _ _ _ | UnaryOp _ _ => true
  | _ => false
  end.

(** The evaluation of [n], started with [frames] frames at clock [c], came
    to an operator of [n] whose operands had been evaluated, before the
    deadline, and the function that the table has for it raised [e] on
    their values. *)
Inductive operator_raised (self : ExpressionEvaluator) (timeout : Q)
  : nat -> node -> Clock -> exception -> Prop :=
  | raised_in_left frames l op r f c e :
      binary_ops self op = Some f ->
      operator_raised self timeout frames l c e ->
      operator_raised self timeout (S frames) (BinOp l op r) c e
  | raised_in_right frames l op r f c a c1 e :
      binary_ops self op = Some f ->
      _eval_node_at frames self l timeout c = (Return a, c1) ->
      operator_raised self timeout frames r c1 e ->
      operator_raised self timeout (S frames) (BinOp l op r) c e
  | raised_by_binary frames l op r f c a c1 b c2 e :
      binary_ops self op = Some f ->
      _eval_node_at frames self l timeout c = (Return a, c1) ->
      _eval_node_at frames self r timeout c1 = (Return b, c2) ->
      Qle_bool (readings c2 (reads c2)) timeout = true ->
      f a b = Err e ->
      operator_raised self timeout (S frames) (BinOp l op r) c e
  | raised_in_operand frames op x f c e :
      unary_ops self op = Some f ->
      operator_raised self timeout frames x c e ->
      operator_raised self timeout (S frames) (UnaryOp op x) c e
  | raised_by_unary frames op x f c a c1 e :
      unary_ops self op = Some f ->
      _eval_node_at frames self x timeout c = (Return a, c1) ->
      Qle_bool (readings c1 (reads c1)) timeout = true ->
      f a = Err e ->
      operator_raised self timeout (S frames) (UnaryOp op x) c e.

(** What a run of [_eval_node] on [n] can end in: a value, when [n] is
    built from what the evaluator has a handler for; or a raise, of
    [ExpressionEvaluator.Error], of [RecursionError] when [n] nests deeper
    than the frames allow, or of what an operator function of [n] raised on
    the values of its operands. *)
Definition sandboxed (frames : nat) (n : node) (timeout : Q) (c : Clock)
    (o : outcome value) : Prop :=
  match o with
  | Return _ => permitted n = true
  | Raise e =>
      is_evaluator_error e
      \/ (e = RecursionError /\ (frames < depth n)%nat)
      \/ operator_raised EquationEvaluator timeout frames n c e
  | Exit _ => False
  end.

(** The outcomes the specification lists for [eval_equation]: an int or
    a float, or one of [SyntaxError], [ValueError] and
    [ExpressionEvaluator.Error]. *)
Definition listed_outcome (o : outcome value) : Prop :=
  match o with
  | Return (VInt _) | Return (VBool _) | Return (VFloat _) => True
  | Raise SyntaxError | Raise (ValueError _)
  | Raise (ExpressionEvaluatorError _) => True
  | _ => False
  end.

End Evaluators.

(** The integer fragment of CPython's arithmetic, with a parser that knows
    the expressions used as examples.  Applications outside the fragment (a
    float or complex operand, or a result that is not an [int]) are answered
    with [OtherError]; no statement relies on them.  Sums of floats are
    exact, as they are on the small integers of the examples, and a thousand
    calls can be nested, the default of [sys.getrecursionlimit()]. *)
Definition unmodelled {A} : result A := Err (OtherError "outside the integer fragment").

Definition int_binary (f : Z -> Z -> result value) (a b : value) : result value :=
  match a, b with
  | VInt x, VInt y => f x y
  | _, _ => unmodelled
  end.

Definition sample_parse (source : string) : result node :=
  if String.eqb source "1/0" then
    Ok (BinOp (Constant (CInt 1)) Div (Constant (CInt 0)))
  else if String.eqb source "1/0 + x" then
    Ok (BinOp (BinOp (Constant (CInt 1)) Div (Constant (CInt 0))) Add (Name "x"))
  else if String.eqb source "2 + 3 * 4" then
    Ok (BinOp (Constant (CInt 2)) Add
          (BinOp (Constant (CInt 3)) Mult (Constant (CInt 4))))
  else Err SyntaxError.

#[export] Instance IntegerRuntime : PythonRuntime := {|
  ast_parse := sample_parse;
  operator_add := int_binary (fun x y => Ok (VInt (x + y)));
  operator_sub := int_binary (fun x y => Ok (VInt (x - y)));
  operator_mul := int_binary (fun x y => Ok (VInt (x * y)));
  operator_truediv :=
    int_binary (fun x y => if y =? 0 then Err ZeroDivisionError else unmodelled);
  operator_pow :=
    int_binary (fun x y => if y <? 0 then unmodelled else Ok (VInt (x ^ y)));
  operator_mod :=
    int_binary (fun x y => if y =? 0 then Err ZeroDivisionError
                           else Ok (VInt (x mod y)));
  operator_floordiv :=
    int_binary (fun x y => if y =? 0 then Err ZeroDivisionError
                           else Ok (VInt (x / y)));
  operator_neg := fun a =>
    match a with VInt x => Ok (VInt (- x)) | _ => unmodelled end;
  operator_pos := fun a =>
    match a with VInt x => Ok (VInt x) | _ => unmodelled end;
  operator_lt := fun a b =>
    match a, b with VInt x, VInt y => Ok (x <? y) | _, _ => unmodelled end;
  float_add := Qplus;
  recursion_limit := 1000;
  add_int := fun a b => eq_refl;
  mul_int := fun a b => eq_refl;
  truediv_int_zero := fun a => eq_refl;
  recursion_limit_pos := Nat.lt_0_succ 999
|}.

(** A clock that stands still at 0. *)
Definition still_clock : Clock := mkClock (fun _ => 0%Q) 0.

(** The same expression with every [^] read as [**]. *)
Fixpoint xor_as_pow (n : node) : node :=
  match n with
  | BinOp l op r =>
      BinOp (xor_as_pow l)
            (match op with BitXor => Pow | _ => op end)
            (xor_as_pow r)
  | UnaryOp op e => UnaryOp op (xor_as_pow e)
  | _ => n
  end.

(** A raise of [ExpressionEvaluator.Error]. *)
Definition is_raise_of_evaluator (o : outcome value) : Prop :=
  exists msg, o = Raise (ExpressionEvaluatorError msg).

(** The constants that evaluate to themselves. *)
Definition numeric_constant (n : node) : option value :=
  match n with
  | Constant (CInt z) => Some (VInt z)
  | Constant (CBool b) => Some (VBool b)
  | Constant (CFloat f) => Some (VFloat f)
  | _ => None
  end.

End Calculation.

(** ** [sopel/tools/_batch.py] and [sopel/irc/__init__.py] *)

Module Irc.

(** *** Collaborators that are not part of the modelled files *)

(** Modelled from the spec: [sopel.irc.utils.safe] is missing; section 6
    says that literal newline and carriage-return bytes are stripped before
    a line is sent. *)
Definition safe (s : string) : string :=
  Str.remove_byte "013"%char (Str.remove_byte "010"%char s).

(** Modelled from the spec: [sopel.irc.utils.CapReq] is missing; section 3
    lists the requesting plugin, the prefix intent, the optional argument
    and the two callbacks.  The field order is that of the constructor
    calls in [cap_req].  Callbacks are opaque handles. *)
Record CapReq : Type := mkCapReq {
  prefix : string;
  module : string;
  failure : option nat;
  arg : option string;
  success : option nat
}.

(** Modelled from the spec: [sopel.irc.isupport.ISupport] is missing;
    section 3 calls it a mapping of server-advertised feature tokens to
    values.  Only the tokens the session controller reads are kept, each
    absent until the server announces it. *)
Record ISupport : Type := mkISupport {
  LINELEN : option Z;
  USERLEN : option Z;
  CASEMAPPING : option string;
  CHANTYPES : option string
}.

(** Modelled from the spec: [sopel.tools.identifiers] is missing; section
    4.1 gives the three case-mapping rules and says that identifiers are
    equal iff their folded forms and fold rule are equal. *)
Inductive casemapping : Type := ascii_lower | rfc1459_lower | rfc1459_strict_lower.

Definition fold_char (rule : casemapping) (a : ascii) : ascii :=
  let n := nat_of_ascii a in
  if (65 <=? n)%nat && (n <=? 90)%nat then ascii_of_nat (n + 32)
  else match rule with
       | ascii_lower => a
       | rfc1459_lower =>
           if (91 <=? n)%nat && (n <=? 94)%nat then ascii_of_nat (n + 32) else a
       | rfc1459_strict_lower =>
           if (91 <=? n)%nat && (n <=? 93)%nat then ascii_of_nat (n + 32) else a
       end.

Fixpoint fold_string (rule : casemapping) (s : string) : string :=
  match s with
  | EmptyString => EmptyString
  | String a s' => String (fold_char rule a) (fold_string rule s')
  end.

Record Identifier : Type := mkIdentifier {
  raw : string;
  rule : casemapping;
  chantypes : string
}.

Definition casemapping_index (c : casemapping) : nat :=
  match c with ascii_lower => 0 | rfc1459_lower => 1 | rfc1459_strict_lower => 2 end.

(** What equality and hashing of an [Identifier] look at. *)
Definition identifier_key (i : Identifier) : nat * string :=
  (casemapping_index (rule i), fold_string (rule i) (raw i)).

Definition DEFAULT_CHANTYPES : string := "#&+!".

(** Modelled from the spec: [sopel.tools.get_sendable_message] is missing;
    section 4.4 (Splitting) says: a sendable prefix ending at or before the
    last whitespace boundary within budget, or a hard cut at the budget if
    no such boundary exists, plus the remainder; text within the budget is
    returned whole with an empty remainder. *)
Fixpoint last_space_within (n : nat) (s : string) : option nat :=
  match n, s with
  | S n', String a s' =>
      match last_space_within n' s' with
      | Some i => Some (S i)
      | None => if Ascii.eqb a " "%char then Some O else None
      end
  | _, _ => None
  end.

Fixpoint lstrip (s : string) : string :=
  match s with
  | String a s' => if Ascii.eqb a " "%char then lstrip s' else s
  | EmptyString => EmptyString
  end.

Definition get_sendable_message (text : string) (max_length : Z)
  : string * string :=
  if Str.encoded_len text <=? max_length then (text, EmptyString)
  else
    let budget := Z.to_nat max_length in
    match last_space_within budget text with
    | Some i => (Str.take_bytes i text, lstrip (Str.drop_bytes i text))
    | None => (Str.take_bytes budget text, Str.drop_bytes budget text)
    end.

(** The structured form of one inbound line ([sopel.trigger.PreTrigger],
    not part of the modelled files): the fields [on_message] reads. *)
Record PreTrigger : Type := mkPreTrigger {
  line : string;
  event : string;
  args : list string;
  tags : gmap string (option string)
}.

(** What the code takes from [sopel.trigger]: the factory that parses a raw
    line for the bot's current nick, and subscripting of its result, which
    [Batch.__init__] uses.  The law says that this collaborator does not
    raise the session controller's own backend error. *)
Definition ERR_BACKEND_NOT_INITIALIZED : string :=
  "Backend not initialized; is the bot running?".

Class TriggerFactory : Type := {
  PreTrigger_new :
    Identifier -> string -> list string -> (string -> Identifier) -> PreTrigger;
  PreTrigger_getitem : PreTrigger -> Z -> result string;
  getitem_foreign : forall p i,
    PreTrigger_getitem p i <> Err (RuntimeError ERR_BACKEND_NOT_INITIALIZED)
}.

(** *** [sopel/tools/_batch.py] *)

Inductive BatchType : Type := CHATHISTORY | NETJOIN | NETSPLIT.

(** [BatchType(value)]: lookup of an enumeration member by value. *)
Definition BatchType_of (v : string) : result BatchType :=
  if String.eqb v "chathistory" then Ok CHATHISTORY
  else if String.eqb v "netjoin" then Ok NETJOIN
  else if String.eqb v "netsplit" then Ok NETSPLIT
  else Err (ValueError ("'" +:+ v +:+ "' is not a valid BatchType")).

Inductive Batch : Type := mkBatch {
  reference : string;
  batchtype : BatchType;
  parent : option Batch;
  messages : list PreTrigger
}.

(** Batch.__init__, for a caller that has the class. *)
Definition Batch_new `{TF : TriggerFactory} (pretrigger : PreTrigger)
    (parent : option Batch) : result Batch :=
  let! item1 := PreTrigger_getitem pretrigger 1 in
  let reference := Str.rest item1 in
  let! item2 := PreTrigger_getitem pretrigger 2 in
  let! batchtype := BatchType_of item2 in
  Ok (mkBatch reference batchtype parent []).

(** *** The session controller's state *)

(** The part of [settings.core] that the modelled methods read. *)
Record Settings : Type := mkSettings {
  core_nick : string;
  core_user : string;
  core_name : string;
  auto_url_schemes : list string;
  auth_method : option string;
  auth_password : option string;
  server_auth_method : option string;
  server_auth_password : option string;
  flood_max_wait : Q;
  flood_burst_lines : Z;
  flood_refill_rate : Z;
  flood_empty_wait : Q;
  flood_text_length : Z;
  flood_penalty_ratio : Q;
  antiloop_threshold : Z;
  antiloop_window : Q;
  antiloop_repeat_text : string;
  antiloop_silent_after : Z
}.

(** The connection backend is a handle; what is asked of it is recorded in
    the trace. *)
Inductive Backend : Type := AsyncioBackend (host : string) (port : Z).

(** One entry of [self.stack]: the last messages sent to a recipient,
    oldest first, each with its timestamp, and the flood bucket. *)
Record RecipientStack : Type := mkRecipientStack {
  stack_messages : list (Q * string);
  flood_left : Z
}.

(** [self].  [hostmask] is the abstract property of the class.  The lists
    of [_cap_reqs] are Python objects that two keys can share: the
    dictionary maps a capability name to the position of its list in
    [cap_lists]. *)
Record Bot : Type := mkBot {
  _user : string;
  _name : string;
  _isupport : ISupport;
  _nick : Identifier;
  hostmask : option string;
  backend : option Backend;
  connection_registered : bool;
  settings : Settings;
  enabled_capabilities : gset string;
  _cap_reqs : gmap string nat;
  cap_lists : list (list CapReq);
  last_error_timestamp : option Q;
  error_count : Z;
  stack : gmap (nat * string) RecipientStack;
  hasquit : bool;
  wantsrestart : bool;
  last_raw_line : string;
  batches : gmap string Batch
}.

Definition set__cap_reqs (v : gmap string nat) (b : Bot) : Bot :=
  {| _user := _user b;
     _name := _name b;
     _isupport := _isupport b;
     _nick := _nick b;
     hostmask := hostmask b;
     backend := backend b;
     connection_registered := connection_registered b;
     settings := settings b;
     enabled_capabilities := enabled_capabilities b;
     _cap_reqs := v;
     cap_lists := cap_lists b;
     last_error_timestamp := last_error_timestamp b;
     error_count := error_count b;
     stack := stack b;
     hasquit := hasquit b;
     wantsrestart := wantsrestart b;
     last_raw_line := last_raw_line b;
     batches := batches b |}.

Definition set_cap_lists (v : list (list CapReq)) (b : Bot) : Bot :=
  {| _user := _user b;
     _name := _name b;
     _isupport := _isupport b;
     _nick := _nick b;
     hostmask := hostmask b;
     backend := backend b;
     connection_registered := connection_registered b;
     settings := settings b;
     enabled_capabilities := enabled_capabilities b;
     _cap_reqs := _cap_reqs b;
     cap_lists := v;
     last_error_timestamp := last_error_timestamp b;
     error_count := error_count b;
     stack := stack b;
     hasquit := hasquit b;
     wantsrestart := wantsrestart b;
     last_raw_line := last_raw_line b;
     batches := batches b |}.

Definition set_last_error_timestamp (v : option Q) (b : Bot) : Bot :=
  {| _user := _user b;
     _name := _name b;
     _isupport := _isupport b;
     _nick := _nick b;
     hostmask := hostmask b;
     backend := backend b;
     connection_registered := connection_registered b;
     settings := settings b;
     enabled_capabilities := enabled_capabilities b;
     _cap_reqs := _cap_reqs b;
     cap_lists := cap_lists b;
     last_error_timestamp := v;
     error_count := error_count b;
     stack := stack b;
     hasquit := hasquit b;
     wantsrestart := wantsrestart b;
     last_raw_line := last_raw_line b;
     batches := batches b |}.

Definition set_error_count (v : Z) (b : Bot) : Bot :=
  {| _user := _user b;
     _name := _name b;
     _isupport := _isupport b;
     _nick := _nick b;
     hostmask := hostmask b;
     backend := backend b;
     connection_registered := connection_registered b;
     settings := settings b;
     enabled_capabilities := enabled_capabilities b;
     _cap_reqs := _cap_reqs b;
     cap_lists := cap_lists b;
     last_error_timestamp := last_error_timestamp b;
     error_count := v;
     stack := stack b;
     hasquit := hasquit b;
     wantsrestart := wantsrestart b;
     last_raw_line := last_raw_line b;
     batches := batches b |}.

Definition set_stack (v : gmap (nat * string) RecipientStack) (b : Bot) : Bot :=
  {| _user := _user b;
     _name := _name b;
     _isupport := _isupport b;
     _nick := _nick b;
     hostmask := hostmask b;
     backend := backend b;
     connection_registered := connection_registered b;
     settings := settings b;
     enabled_capabilities := enabled_capabilities b;
     _cap_reqs := _cap_reqs b;
     cap_lists := cap_lists b;
     last_error_timestamp := last_error_timestamp b;
     error_count := error_count b;
     stack := v;
     hasquit := hasquit b;
     wantsrestart := wantsrestart b;
     last_raw_line := last_raw_line b;
     batches := batches b |}.

Definition set_hasquit (v : bool) (b : Bot) : Bot :=
  {| _user := _user b;
     _name := _name b;
     _isupport := _isupport b;
     _nick := _nick b;
     hostmask := hostmask b;
     backend := backend b;
     connection_registered := connection_registered b;
     settings := settings b;
     enabled_capabilities := enabled_capabilities b;
     _cap_reqs := _cap_reqs b;
     cap_lists := cap_lists b;
     last_error_timestamp := last_error_timestamp b;
     error_count := error_count b;
     stack := stack b;
     hasquit := v;
     wantsrestart := wantsrestart b;
     last_raw_line := last_raw_line b;
     batches := batches b |}.

Definition set_wantsrestart (v : bool) (b : Bot) : Bot :=
  {| _user := _user b;
     _name := _name b;
     _isupport := _isupport b;
     _nick := _nick b;
     hostmask := hostmask b;
     backend := backend b;
     connection_registered := connection_registered b;
     settings := settings b;
     enabled_capabilities := enabled_capabilities b;
     _cap_reqs := _cap_reqs b;
     cap_lists := cap_lists b;
     last_error_timestamp := last_error_timestamp b;
     error_count := error_count b;
     stack := stack b;
     hasquit := hasquit b;
     wantsrestart := v;
     last_raw_line := last_raw_line b;
     batches := batches b |}.

Definition set_last_raw_line (v : string) (b : Bot) : Bot :=
  {| _user := _user b;
     _name := _name b;
     _isupport := _isupport b;
     _nick := _nick b;
     hostmask := hostmask b;
     backend := backend b;
     connection_registered := connection_registered b;
     settings := settings b;
     enabled_capabilities := enabled_capabilities b;
     _cap_reqs := _cap_reqs b;
     cap_lists := cap_lists b;
     last_error_timestamp := last_error_timestamp b;
     error_count := error_count b;
     stack := stack b;
     hasquit := hasquit b;
     wantsrestart := wantsrestart b;
     last_raw_line := v;
     batches := batches b |}.

Definition set_batches (v : gmap string Batch) (b : Bot) : Bot :=
  {| _user := _user b;
     _name := _name b;
     _isupport := _isupport b;
     _nick := _nick b;
     hostmask := hostmask b;
     backend := backend b;
     connection_registered := connection_registered b;
     settings := settings b;
     enabled_capabilities := enabled_capabilities b;
     _cap_reqs := _cap_reqs b;
     cap_lists := cap_lists b;
     last_error_timestamp := last_error_timestamp b;
     error_count := error_count b;
     stack := stack b;
     hasquit := hasquit b;
     wantsrestart := wantsrestart b;
     last_raw_line := last_raw_line b;
     batches := v |}.

Inductive BackendCall : Type :=
  | send_command (args : list string) (text : option string)
  | send_pass (password : option string)
  | send_nick (nick : string)
  | send_user (user mode servername realname : string)
  | send_pong (token : string)
  | on_irc_error (pretrigger : PreTrigger)
  | send_join (channel : string) (password : option string)
  | send_kick (channel nick : string) (reason : option string)
  | send_notice (dest text : string)
  | send_part (channel : string) (reason : option string)
  | send_quit (reason : option string)
  | send_privmsg (dest text : string).

(** What a run does to the outside, in order.  A log record keeps its
    logger, level and format string. *)
Inductive Event : Type :=
  | Wire (call : BackendCall)
  | Dispatch (pretrigger : PreTrigger)
  | Log (logger level format : string)
  | Sleep (seconds : Q).

Record Runtime : Type := mkRuntime {
  self : Bot;
  clock : Clock;
  trace : list Event
}.

Definition get_self : M Runtime Bot := fun rt => (Return (self rt), rt).

Definition update_self (f : Bot -> Bot) : M Runtime unit :=
  fun rt => (Return tt, mkRuntime (f (self rt)) (clock rt) (trace rt)).

Definition emit (e : Event) : M Runtime unit :=
  fun rt => (Return tt, mkRuntime (self rt) (clock rt) (trace rt ++ [e])).

(** [time.time()] and [datetime.utcnow()], in seconds. *)
Definition now : M Runtime Q :=
  fun rt =>
    match time_time (clock rt) with
    | (o, c) => (o, mkRuntime (self rt) c (trace rt))
    end.

(** The backend calls of a trace, and the seconds slept in it. *)
Definition wire_calls (tr : list Event) : list BackendCall :=
  omap (fun e => match e with Wire c => Some c | _ => None end) tr.

Definition dispatched (tr : list Event) : list PreTrigger :=
  omap (fun e => match e with Dispatch p => Some p | _ => None end) tr.

Definition slept (tr : list Event) : Q :=
  fold_right (fun e acc => match e with Sleep q => q + acc | _ => acc end)%Q 0%Q tr.

(** *** Small Python idioms *)

Definition nonempty (s : string) : bool :=
  match s with EmptyString => false | _ => true end.

Definition Qlt_bool (x y : Q) : bool := negb (Qle_bool y x).

(** [min(a, b)] on numbers: [b] when it is strictly smaller, else [a]. *)
Definition Qpy_min (a b : Q) : Q := if Qlt_bool b a then b else a.

(** [int(x)] of a float: rounding towards zero. *)
Definition Qint (x : Q) : Z := Z.quot (Qnum x) (Zpos (Qden x)).

(** [list.count] *)
Definition count_of (x : string) (l : list string) : Z :=
  Z.of_nat (length (filter (fun y => y = x) l)).

(** [deque(maxlen=10).append] *)
Definition deque_append {A} (d : list A) (x : A) : list A :=
  let d' := d ++ [x] in
  if (10 <? length d')%nat then drop 1 d' else d'.

Definition newline : string := String "010"%char EmptyString.
Definition dquote : string := String "034"%char EmptyString.

Section Methods.
Context `{TF : TriggerFactory}.

(** AbstractBot.make_identifier, as a function of [self.isupport]. *)
Definition make_identifier_for (isupport : ISupport) (name : string)
  : Identifier :=
  let casemapping :=
    match CASEMAPPING isupport with
    | Some m =>
        if String.eqb m "ascii" then ascii_lower
        else if String.eqb m "rfc1459" then rfc1459_lower
        else if String.eqb m "rfc1459-strict" then rfc1459_strict_lower
        else rfc1459_lower
    | None => rfc1459_lower
    end in
  let chantypes :=
    match CHANTYPES isupport with
    | Some c => c
    | None => DEFAULT_CHANTYPES
    end in
  mkIdentifier name casemapping chantypes.

Definition make_identifier (b : Bot) (name : string) : Identifier :=
  make_identifier_for (_isupport b) name.

(** AbstractBot.__init__ *)
Definition init (settings : Settings) : Bot :=
  let isupport := mkISupport None None None None in
  {| _user := core_user settings;
     _name := core_name settings;
     _isupport := isupport;
     _nick := make_identifier_for isupport (core_nick settings);
     hostmask := None;
     backend := None;
     connection_registered := false;
     settings := settings;
     enabled_capabilities := ∅;
     _cap_reqs := ∅;
     cap_lists := [];
     last_error_timestamp := None;
     error_count := 0;
     stack := ∅;
     hasquit := false;
     wantsrestart := false;
     last_raw_line := EmptyString;
     batches := ∅ |}.

(** AbstractBot.safe_text_length.  [recipient.encode('utf-8')] raises
    UnicodeEncodeError on a [str] with a lone surrogate; such a [str] has no
    representation here, and the length is that of a recipient that can be
    encoded. *)
Definition safe_text_length (b : Bot) (recipient : string) : Z :=
  let max_line_length :=
    match LINELEN (_isupport b) with Some n => n | None => 512 end in
  let hostmask_length :=
    match hostmask b with
    | Some h => Str.len h
    | None =>
        Str.len (raw (_nick b))
        + 1
        + 1
        + Z.min (Str.len (_user b))
                (match USERLEN (_isupport b) with Some n => n | None => 9 end)
        + 1
        + 63
    end in
  max_line_length
  - 1
  - hostmask_length
  - 1
  - 7
  - 1
  - Str.encoded_len recipient
  - 2
  - 2.

(** The guard that opens every method that needs the transport. *)
Definition require_backend : M Runtime Backend :=
  do b <- get_self;
  match backend b with
  | None => raise (RuntimeError ERR_BACKEND_NOT_INITIALIZED)
  | Some be => ret be
  end.

Definition LOGGER (level format : string) : M Runtime unit :=
  emit (Log "sopel.irc" level format).

(** AbstractBot.on_connect *)
Definition on_connect : M Runtime unit :=
  do _ <- require_backend;
  do b <- get_self;
  do _ <- LOGGER "info" "Connected, initiating setup sequence";
  do _ <- LOGGER "debug" "Sending CAP request";
  do _ <- emit (Wire (send_command ["CAP"; "LS"; "302"] None));
  do _ <- (if bool_decide (auth_method (settings b) = Some "server") then
             do _ <- LOGGER "debug" "Sending server auth";
             emit (Wire (send_pass (auth_password (settings b))))
           else if bool_decide (server_auth_method (settings b) = Some "server") then
             do _ <- LOGGER "debug" "Sending server auth";
             emit (Wire (send_pass (server_auth_password (settings b))))
           else ret tt);
  do _ <- LOGGER "debug" ("Sending nick " +:+ dquote +:+ "%s" +:+ dquote);
  do _ <- emit (Wire (send_nick (raw (_nick b))));
  do _ <- LOGGER "debug" ("Sending user " +:+ dquote +:+ "%s" +:+ dquote
                          +:+ " (name: " +:+ dquote +:+ "%s" +:+ dquote +:+ ")");
  emit (Wire (send_user (_user b) "0" "*" (_name b))).

(** [trigger.PreTrigger(self.nick, message, url_schemes=..., identifier_factory=...)] *)
Definition parse_line (b : Bot) (message : string) : PreTrigger :=
  PreTrigger_new (_nick b) message (auto_url_schemes (settings b))
    (make_identifier b).

(** AbstractBot.on_message.  The source has [if self.batches[...]]
    without its colon on the close branch, followed by
    [pass  # todo: handle batch]; it is read as an [if] whose body is that
    [pass], so the subscript is evaluated and nothing else is done.  On the
    open branch the source calls [Batch], a name that the module neither
    imports nor defines: looking it up raises [NameError] before an argument
    is evaluated, so that [on_message] never stores a batch. *)
Definition on_message (message : string) : M Runtime unit :=
  do _ <- require_backend;
  do _ <- update_self (set_last_raw_line message);
  do b <- get_self;
  let pretrigger := parse_line b message in
  let pretrigger :=
    if bool_decide ("account-tag" ∉ enabled_capabilities b)
       && bool_decide ("extended-join" ∉ enabled_capabilities b)
    then mkPreTrigger (line pretrigger) (event pretrigger) (args pretrigger)
           (delete "account" (tags pretrigger))
    else pretrigger in
  (* Batch handling; [false] stands for the early [return]s *)
  do go_on <-
    (if String.eqb (event pretrigger) "BATCH" then
       do arg1 <- lift (match args pretrigger !! 1%nat with
                        | Some a => Ok a
                        | None => Err IndexError
                        end);
       do action <- lift (Str.first arg1);
       if String.eqb action "+" then
         raise (NameError "Batch")
       else if String.eqb action "-" then
         match batches b !! action with
         | Some _ => ret true  (* todo: handle batch *)
         | None => raise (KeyError action)
         end
       else
         do _ <- LOGGER "error" "Received malformed BATCH message: %r";
         ret false
     else ret true);
  if negb go_on then ret tt else
  do b <- get_self;
  do go_on <-
    (match tags pretrigger !! "batch" with
     | Some r =>
         if match r with
            | Some r => bool_decide (batches b !! r = None)
            | None => true
            end
         then
           do _ <- LOGGER "error" "Received message in unknown batch: %r";
           ret false
         else ret true  (* todo: add message to batch *)
     | None => ret true
     end);
  if negb go_on then ret tt else
  do _ <-
    (if String.eqb (event pretrigger) "PING" then
       do token <- lift (match last (args pretrigger) with
                         | Some a => Ok a
                         | None => Err IndexError
                         end);
       emit (Wire (send_pong token))
     else if String.eqb (event pretrigger) "ERROR" then
       do _ <- lift (match last (args pretrigger) with
                     | Some a => Ok a
                     | None => Err IndexError
                     end);
       do _ <- LOGGER "error" "ERROR received from server: %s";
       emit (Wire (on_irc_error pretrigger))
     else ret tt);
  emit (Dispatch pretrigger).

(** AbstractBot.on_error *)
Definition on_error : M Runtime unit :=
  do _ <- LOGGER "error" "Fatal error in core, please review exceptions log.";
  do _ <- emit (Log "sopel.exceptions" "error"
                  ("Fatal error in core, handle_error() was called."
                   +:+ newline +:+ "Last Line:" +:+ newline +:+ "%s"));
  do _ <- emit (Log "sopel.exceptions" "exception" "Fatal error traceback");
  do _ <- emit (Log "sopel.exceptions" "error"
                  "----------------------------------------");
  do b <- get_self;
  do _ <-
    (if error_count b >? 10 then
       do dt_seconds <-
         (match last_error_timestamp b with
          | Some t => do utcnow <- now; ret (utcnow - t)%Q
          | None => ret 0%Q
          end);
       if Qlt_bool dt_seconds 5 then
         do _ <- LOGGER "error" "Too many errors, can't continue";
         os_exit 1
       else
         update_self
           (set_error_count (Z.max 0 (error_count b - Qfloor (dt_seconds / 5))))
     else ret tt);
  do utcnow <- now;
  do _ <- update_self (set_last_error_timestamp (Some utcnow));
  update_self (fun b => set_error_count (error_count b + 1) b).

(** [entry.append(req); self._cap_reqs[cap] = entry], where [entry] is
    the list object found at position [loc], or a new list when the
    lookup fell back to its default. *)
Definition store_entry (cap : string) (loc : option nat) (req : CapReq)
    (b : Bot) : Bot :=
  match loc with
  | Some l =>
      set__cap_reqs (<[cap := l]> (_cap_reqs b))
        (set_cap_lists
           (<[l := default [] (cap_lists b !! l) ++ [req]]> (cap_lists b)) b)
  | None =>
      set__cap_reqs (<[cap := length (cap_lists b)]> (_cap_reqs b))
        (set_cap_lists (cap_lists b ++ [[req]]) b)
  end.

Definition ERR_CAPABILITY_CONFLICT : string := "Capability conflict".
Definition ERR_CAPABILITY_LATE : string :=
  "Can not change capabilities after server connection has been completed.".

(** AbstractBot.cap_req *)
Definition cap_req (plugin_name capability : string) (arg : option string)
    (failure_callback success_callback : option nat) : M Runtime unit :=
  let cap := Str.rest capability in
  do prefix <- lift (Str.first capability);
  do b <- get_self;
  let loc := _cap_reqs b !! cap in
  let entry :=
    match loc with
    | Some l => default [] (cap_lists b !! l)
    | None => []
    end in
  if existsb (fun ent => negb (bool_decide (Irc.arg ent = arg))) entry
  then raise (Exception ERR_CAPABILITY_CONFLICT)
  else if String.eqb prefix "-" then
    if connection_registered b && bool_decide (cap ∈ enabled_capabilities b)
    then raise (Exception ERR_CAPABILITY_LATE)
    else if existsb (fun ent => negb (String.eqb (Irc.prefix ent) "-")) entry
    then raise (Exception ERR_CAPABILITY_CONFLICT)
    else
      update_self
        (store_entry cap loc
           (mkCapReq prefix plugin_name failure_callback arg success_callback))
  else
    let '(cap, prefix) :=
      if negb (String.eqb prefix "=") then (capability, EmptyString)
      else (cap, prefix) in
    if connection_registered b && bool_decide (cap ∉ enabled_capabilities b)
    then raise (Exception ERR_CAPABILITY_LATE)
    else if existsb (fun ent => String.eqb (Irc.prefix ent) "-") entry
            && String.eqb prefix "="
    then raise (Exception ERR_CAPABILITY_CONFLICT)
    else
      update_self
        (store_entry cap loc
           (mkCapReq prefix plugin_name failure_callback arg success_callback)).

(** AbstractBot.write *)
Definition write (args : list string) (text : option string)
  : M Runtime unit :=
  do _ <- require_backend;
  let args := map safe args in
  emit (Wire (send_command args text)).

(** AbstractBot.join *)
Definition join (channel : string) (password : option string)
  : M Runtime unit :=
  do _ <- require_backend;
  emit (Wire (send_join channel password)).

(** AbstractBot.kick *)
Definition kick (nick channel : string) (text : option string)
  : M Runtime unit :=
  do _ <- require_backend;
  emit (Wire (send_kick channel nick text)).

(** AbstractBot.notice *)
Definition notice (text dest : string) : M Runtime unit :=
  do _ <- require_backend;
  emit (Wire (send_notice dest text)).

(** AbstractBot.part *)
Definition part (channel : string) (msg : option string) : M Runtime unit :=
  do _ <- require_backend;
  emit (Wire (send_part channel msg)).

(** AbstractBot.quit *)
Definition quit (message : option string) : M Runtime unit :=
  do _ <- require_backend;
  do _ <- emit (Wire (send_quit message));
  update_self (set_hasquit true).

(** AbstractBot.restart *)
Definition restart (message : option string) : M Runtime unit :=
  do _ <- update_self (set_wantsrestart true);
  quit message.

(** AbstractBot.say, first part: what is done to [text] before the
    sending lock is taken.  Returns the text to send and the excess. *)
Definition say_split (b : Bot) (text recipient : string) (max_messages : Z)
    (truncation trailing : string) : string * string :=
  let excess := EmptyString in
  let safe_length := safe_text_length b recipient in
  let '(safe_length, text, excess) :=
    if (max_messages >? 1) || nonempty truncation || nonempty trailing then
      let safe_length :=
        if (max_messages =? 1) && nonempty trailing
        then safe_length - Str.encoded_len trailing
        else safe_length in
      let '(text, excess) := get_sendable_message text safe_length in
      (safe_length, text, excess)
    else (safe_length, text, excess) in
  if max_messages =? 1 then
    let '(text, excess) :=
      if nonempty excess && nonempty truncation then
        let safe_length := safe_length - Str.encoded_len truncation in
        let '(text, excess) := get_sendable_message text safe_length in
        (text +:+ truncation, excess)
      else (text, excess) in
    (text +:+ trailing, excess)
  else (text, excess).

Definition set_recipient_stack (recipient_id : nat * string)
    (rs : RecipientStack) : M Runtime unit :=
  update_self (fun b => set_stack (<[recipient_id := rs]> (stack b)) b).

(** The entry of [self.stack] that [setdefault] returns for a recipient:
    the one that is there, or a fresh one with a full bucket. *)
Definition recipient_key (b : Bot) (recipient : string) : nat * string :=
  identifier_key (make_identifier b recipient).

Definition recipient_stack_of (b : Bot) (recipient : string) : RecipientStack :=
  default (mkRecipientStack [] (flood_burst_lines (settings b)))
          (stack b !! recipient_key b recipient).

(** The expressions of the flood control and of the loop detection, in the
    order in which [say] evaluates them. *)

(** [min(flood_burst_lines, int(elapsed) * flood_refill_rate)] *)
Definition flood_refill (s : Settings) (elapsed : Q) : Z :=
  Z.min (flood_burst_lines s) (Qint elapsed * flood_refill_rate s).

(** [penalty]; the division raises when [penalty_ratio] is zero. *)
Definition flood_penalty (s : Settings) (text : string) : result Q :=
  if Qlt_bool 0 (flood_penalty_ratio s) then
    let penalty_ratio :=
      (inject_Z (flood_text_length s) * flood_penalty_ratio s)%Q in
    let text_length_overflow :=
      inject_Z (Z.max 0 (Str.len text - flood_text_length s)) in
    if Qeq_bool penalty_ratio 0 then Err ZeroDivisionError
    else Ok (text_length_overflow / penalty_ratio)%Q
  else Ok 0%Q.

(** [wait = min(initial_wait_time, flood_max_wait)] *)
Definition flood_wait (s : Settings) (penalty : Q) : Q :=
  let initial_wait_time := (flood_empty_wait s + penalty)%Q in
  Qpy_min initial_wait_time (flood_max_wait s).

(** The loop detection: the text to send, or [None] for the [return]. *)
Definition loop_detection (s : Settings) (elapsed : Q)
    (messages : list (Q * string)) (text : string) : option string :=
  let antiloop_threshold := Z.min 10 (antiloop_threshold s) in
  if (antiloop_threshold >? 0) && Qlt_bool elapsed (antiloop_window s) then
    let messages := map snd messages in
    if count_of text messages >=? antiloop_threshold then
      let text := antiloop_repeat_text s in
      if count_of text messages >=? antiloop_silent_after s then None
      else Some text
    else Some text
  else Some text.

Definition FLOOD_DEBUG_FORMAT : string :=
  "Flood protection wait time: %.3fs; "
  +:+ "elapsed time: %.3fs; "
  +:+ "initial wait time (limited to %.3fs): %.3fs "
  +:+ "(including %.3fs of penalty).".

(** AbstractBot.say, second part: the block under [with self.sending].
    The result is [false] when the block ends in its [return].  The lock
    itself is not modelled: the block runs for one caller at a time. *)
Definition say_sending (text recipient : string) : M Runtime bool :=
  do b <- get_self;
  let s := settings b in
  let recipient_id := recipient_key b recipient in
  (* self.stack.setdefault *)
  let recipient_stack := recipient_stack_of b recipient in
  do _ <-
    (match stack b !! recipient_id with
     | Some _ => ret tt
     | None => set_recipient_stack recipient_id recipient_stack
     end);
  let messages := stack_messages recipient_stack in
  do elapsed <-
    (match last messages with
     | Some (t, _) => do time <- now; ret (time - t)%Q
     | None => ret 300%Q
     end);
  (* refill the bucket *)
  do bucket <-
    (if flood_left recipient_stack =? 0 then
       do _ <- set_recipient_stack recipient_id
                 (mkRecipientStack messages (flood_refill s elapsed));
       ret (flood_refill s elapsed)
     else ret (flood_left recipient_stack));
  (* wait when it is too soon *)
  do _ <-
    (if bucket =? 0 then
       do penalty <- lift (flood_penalty s text);
       let wait := flood_wait s penalty in
       if Qlt_bool elapsed wait then
         let sleep_time := (wait - elapsed)%Q in
         do _ <- LOGGER "debug" FLOOD_DEBUG_FORMAT;
         emit (Sleep sleep_time)
       else ret tt
     else ret tt);
  (* loop detection *)
  match loop_detection s elapsed messages text with
  | None => ret false
  | Some text =>
      do _ <- emit (Wire (send_privmsg recipient text));
      let flood_left := bucket - 1 in
      do _ <- set_recipient_stack recipient_id
                (mkRecipientStack messages (Z.max 0 flood_left));
      do time <- now;
      do _ <- set_recipient_stack recipient_id
                (mkRecipientStack (deque_append messages (time, safe text))
                   (Z.max 0 flood_left));
      ret true
  end.

(** What the block sees: the time since the last message to the recipient
    (300 when there is none), the bucket after the refill, and what the wait
    adds to the trace. *)
Definition elapsed_of (rt : Runtime) (recipient : string) : Q :=
  match last (stack_messages (recipient_stack_of (self rt) recipient)) with
  | Some (t, _) => (readings (clock rt) (reads (clock rt)) - t)%Q
  | None => 300%Q
  end.

Definition bucket_of (rt : Runtime) (recipient : string) : Z :=
  let rs := recipient_stack_of (self rt) recipient in
  if flood_left rs =? 0
  then flood_refill (settings (self rt)) (elapsed_of rt recipient)
  else flood_left rs.

Definition flood_events (s : Settings) (elapsed : Q) (bucket : Z) (penalty : Q)
    : list Event :=
  if (bucket =? 0) && Qlt_bool elapsed (flood_wait s penalty)
  then [Log "sopel.irc" "debug" FLOOD_DEBUG_FORMAT;
        Sleep (flood_wait s penalty - elapsed)%Q]
  else [].

(** The flood-control quantities as the specification words them. *)
Definition spec_refill (s : Settings) (elapsed : Q) : Z :=
  Z.min (flood_burst_lines s) (Qfloor elapsed * flood_refill_rate s).

Definition spec_penalty (s : Settings) (text : string) : Q :=
  if Qlt_bool 0 (flood_penalty_ratio s)
  then (inject_Z (Z.max 0 (Str.len text - flood_text_length s))
        / (inject_Z (flood_text_length s) * flood_penalty_ratio s))%Q
  else 0%Q.



(** The divisor of the penalty is not zero when the penalty is computed. *)
Definition penalty_defined (s : Settings) : Prop :=
  (0 < flood_penalty_ratio s)%Q ->
  ~ (inject_Z (flood_text_length s) * flood_penalty_ratio s == 0)%Q.

Arguments flood_refill : simpl never.
Arguments flood_penalty : simpl never.
Arguments flood_wait : simpl never.
Arguments loop_detection : simpl never.
Arguments deque_append : simpl never.
Arguments safe : simpl never.
Arguments recipient_key : simpl never.

Definition ERR_RECURSION : exception := OtherError "say: out of fuel".

(** AbstractBot.say.  The recursion of the source goes down on
    [max_messages]; here it goes down on [fuel], which [say] sets to
    [max_messages], more than the recursive calls that can follow.  The
    bound that the interpreter sets to the recursion is not modelled: the
    calls nest at most [max_messages] deep. *)
Fixpoint say_rec (fuel : nat) (text recipient : string) (max_messages : Z)
    (truncation trailing : string) : M Runtime unit :=
  do _ <- require_backend;
  do b <- get_self;
  let '(text, excess) :=
    say_split b text recipient max_messages truncation trailing in
  do sent <- say_sending text recipient;
  if (sent : bool) && (max_messages >? 1) && nonempty excess then
    match fuel with
    | S fuel' =>
        say_rec fuel' excess recipient (max_messages - 1) truncation trailing
    | O => raise ERR_RECURSION
    end
  else ret tt.

Definition say (text recipient : string) (max_messages : Z)
    (truncation trailing : string) : M Runtime unit :=
  say_rec (Z.to_nat max_messages) text recipient max_messages
    truncation trailing.

(** AbstractBot.action *)
Definition action (text dest : string) : M Runtime unit :=
  say (String "001"%char ("ACTION " +:+ text +:+ String "001"%char EmptyString))
    dest 1 EmptyString EmptyString.

(** AbstractBot.reply *)
Definition reply (text dest reply_to : string) (notice_flag : bool)
  : M Runtime unit :=
  let text := reply_to +:+ ": " +:+ text in
  if notice_flag then notice text dest
  else say text dest 1 EmptyString EmptyString.

(** The seconds since the previous fatal error, as [on_error] measures
    them when the counter is above the ceiling: 0 when there was none. *)
Definition seconds_since_last_error (rt : Runtime) : Q :=
  match last_error_timestamp (self rt) with
  | Some t => (readings (clock rt) (reads (clock rt)) - t)%Q
  | None => 0%Q
  end.

(** The pretrigger that [on_message] works with: the parsed line, without
    its [account] tag unless a capability that vouches for it is enabled. *)
Definition pretrigger_of (b : Bot) (message : string) : PreTrigger :=
  let pretrigger := parse_line b message in
  if bool_decide ("account-tag" ∉ enabled_capabilities b)
     && bool_decide ("extended-join" ∉ enabled_capabilities b)
  then mkPreTrigger (line pretrigger) (event pretrigger) (args pretrigger)
         (delete "account" (tags pretrigger))
  else pretrigger.

(** The requests recorded for a capability name: the list that
    [self._cap_reqs.get(cap, [])] returns. *)
Definition requests_for (b : Bot) (cap : string) : list CapReq :=
  match _cap_reqs b !! cap with
  | Some l => default [] (cap_lists b !! l)
  | None => []
  end.

(** Every key of [_cap_reqs] holds a list that exists. *)
Definition registry_ok (b : Bot) : Prop :=
  map_Forall (fun _ l => (l < length (cap_lists b))%nat) (_cap_reqs b).

(** The two errors that section 7 of the specification files under
    ConflictError: a request that contradicts a recorded one, and a change
    attempted after registration.  The source raises both as [Exception]. *)
Definition capability_conflict (e : exception) : Prop :=
  e = Exception ERR_CAPABILITY_CONFLICT \/ e = Exception ERR_CAPABILITY_LATE.

(** A property of every method that needs the transport: the public API
    [say], [notice], [join], [part], [kick], [quit], [write], and the
    connection handlers [on_connect] and [on_message], for all arguments. *)
Definition transport_methods (P : forall A, M Runtime A -> Prop) : Prop :=
  (forall text recipient max_messages truncation trailing,
      P _ (say text recipient max_messages truncation trailing))
  /\ (forall text dest, P _ (notice text dest))
  /\ (forall channel password, P _ (join channel password))
  /\ (forall channel msg, P _ (part channel msg))
  /\ (forall nick channel text, P _ (kick nick channel text))
  /\ (forall message, P _ (quit message))
  /\ (forall args text, P _ (write args text))
  /\ P _ on_connect
  /\ (forall message, P _ (on_message message)).

(** [RuntimeError(ERR_BACKEND_NOT_INITIALIZED)] *)
Definition backend_error : exception := RuntimeError ERR_BACKEND_NOT_INITIALIZED.

End Methods.

(** A stand-in for [sopel.trigger], for running the methods on concrete
    lines: it knows three lines, and subscripting a pretrigger indexes the
    command followed by its arguments. *)
Definition sample_pretrigger (message : string) : PreTrigger :=
  if String.eqb message "@batch=ref1 :nick!u@h PRIVMSG #chan :hello" then
    mkPreTrigger message "PRIVMSG" ["#chan"; "hello"] {[ "batch" := Some "ref1" ]}
  else if String.eqb message "PING :token" then
    mkPreTrigger message "PING" ["token"] ∅
  else if String.eqb message ":nick!u@h PRIVMSG #chan :hello" then
    mkPreTrigger message "PRIVMSG" ["#chan"; "hello"] ∅
  else mkPreTrigger message "UNKNOWN" [] ∅.

Definition sample_getitem (p : PreTrigger) (i : Z) : result string :=
  if i <? 0 then Err IndexError
  else match (event p :: args p) !! Z.to_nat i with
       | Some a => Ok a
       | None => Err IndexError
       end.

Lemma sample_getitem_foreign p i :
  sample_getitem p i <> Err (RuntimeError ERR_BACKEND_NOT_INITIALIZED).
Proof.
  unfold sample_getitem. destruct (i <? 0); [discriminate |].
  destruct (_ !! _); discriminate.
Qed.

#[export] Instance SampleFactory : TriggerFactory := {|
  PreTrigger_new := fun _ message _ _ => sample_pretrigger message;
  PreTrigger_getitem := sample_getitem;
  getitem_foreign := sample_getitem_foreign
|}.

(** Sample configurations and states: the defaults of the flood and
    loop settings, with the loop threshold left open. *)
Definition settings_with_threshold (threshold : Z) : Settings :=
  {| core_nick := "bot"; core_user := "b"; core_name := "Sopel";
     auto_url_schemes := ["http"; "https"; "ftp"];
     auth_method := None; auth_password := None;
     server_auth_method := None; server_auth_password := None;
     flood_max_wait := 2; flood_burst_lines := 4; flood_refill_rate := 1;
     flood_empty_wait := 7 # 10; flood_text_length := 50;
     flood_penalty_ratio := 14 # 10;
     antiloop_threshold := threshold; antiloop_window := 120;
     antiloop_repeat_text := "..."; antiloop_silent_after := 3 |}.

Definition sample_settings : Settings := settings_with_threshold 3.

Definition with_backend (b : Bot) : Bot :=
  {| _user := _user b; _name := _name b; _isupport := _isupport b;
     _nick := _nick b; hostmask := hostmask b;
     backend := Some (AsyncioBackend "irc.example.org" 6667);
     connection_registered := connection_registered b;
     settings := settings b; enabled_capabilities := enabled_capabilities b;
     _cap_reqs := _cap_reqs b; cap_lists := cap_lists b;
     last_error_timestamp := last_error_timestamp b;
     error_count := error_count b; stack := stack b; hasquit := hasquit b;
     wantsrestart := wantsrestart b; last_raw_line := last_raw_line b;
     batches := batches b |}.

Definition with_isupport (i : ISupport) (b : Bot) : Bot :=
  {| _user := _user b; _name := _name b; _isupport := i;
     _nick := _nick b; hostmask := hostmask b; backend := backend b;
     connection_registered := connection_registered b;
     settings := settings b; enabled_capabilities := enabled_capabilities b;
     _cap_reqs := _cap_reqs b; cap_lists := cap_lists b;
     last_error_timestamp := last_error_timestamp b;
     error_count := error_count b; stack := stack b; hasquit := hasquit b;
     wantsrestart := wantsrestart b; last_raw_line := last_raw_line b;
     batches := batches b |}.

(** The state after a first request has been made on a fresh bot. *)
Definition after_cap_req (plugin_name capability : string) (arg : option string)
    : Runtime :=
  snd (cap_req plugin_name capability arg None None
         (mkRuntime (init sample_settings) (mkClock (fun _ => 0%Q) 0) [])).

(** A running bot that has sent [sent], all at time 0, to [#chan], with
    [left] lines left in the bucket. *)
Definition bot_having_sent (threshold : Z) (sent : list string) (left : Z) : Bot :=
  let b := with_backend (init (settings_with_threshold threshold)) in
  set_stack
    {[ recipient_key b "#chan"
       := mkRecipientStack (map (fun m => (0%Q, m)) sent) left ]} b.

(** A running bot with the batch [ref1] open.  The state is built by hand:
    [on_message] itself stores no batch. *)
Definition bot_with_open_batch : Bot :=
  set_batches {[ "ref1" := mkBatch "ref1" CHATHISTORY None [] ]}
    (with_backend (init sample_settings)).

(** The end-to-end scenario of the specification: the server advertises
    LINELEN=100, the nick is [bot] and the user [b]. *)
Definition scenario_bot : Bot :=
  with_backend
    (with_isupport (mkISupport (Some 100) None None None)
       (init sample_settings)).

Definition x150 : string := Str.repeat "x"%char 150.

(** A clock whose n-th reading is [start + n * step]. *)
Definition ticking (start step : Q) : Clock :=
  mkClock (fun n => start + inject_Z (Z.of_nat n) * step)%Q 0.

Definition start (b : Bot) (c : Clock) : Runtime := mkRuntime b c [].

(** *** The remaining methods of [AbstractBot] *)

Definition set__nick (v : Identifier) (b : Bot) : Bot :=
  {| _user := _user b;
     _name := _name b;
     _isupport := _isupport b;
     _nick := v;
     hostmask := hostmask b;
     backend := backend b;
     connection_registered := connection_registered b;
     settings := settings b;
     enabled_capabilities := enabled_capabilities b;
     _cap_reqs := _cap_reqs b;
     cap_lists := cap_lists b;
     last_error_timestamp := last_error_timestamp b;
     error_count := error_count b;
     stack := stack b;
     hasquit := hasquit b;
     wantsrestart := wantsrestart b;
     last_raw_line := last_raw_line b;
     batches := batches b |}.

(** [BatchType.value] *)
Definition BatchType_value (t : BatchType) : string :=
  match t with
  | CHATHISTORY => "chathistory"
  | NETJOIN => "netjoin"
  | NETSPLIT => "netsplit"
  end.

(** Every recipient's history holds at most ten messages. *)
Definition stack_bounded (b : Bot) : Prop :=
  map_Forall (fun _ rs => (length (stack_messages rs) <= 10)%nat) (stack b).

Section OtherMethods.
Context `{TF : TriggerFactory}.

(** AbstractBot.rebuild_nick *)
Definition rebuild_nick : M Runtime unit :=
  update_self (fun b => set__nick (make_identifier b (raw (_nick b))) b).

(** AbstractBot.change_current_nick *)
Definition change_current_nick (new_nick : string) : M Runtime unit :=
  do _ <- require_backend;
  do _ <- update_self (fun b => set__nick (make_identifier b new_nick) b);
  do b <- get_self;
  do _ <- LOGGER "debug" ("Sending nick " +:+ dquote +:+ "%s" +:+ dquote);
  emit (Wire (send_nick (raw (_nick b)))).

(** AbstractBot._shutdown and AbstractBot.on_close *)
Definition _shutdown : M Runtime unit := ret tt.

Definition on_close : M Runtime unit := _shutdown.

(** [on_error], [n] times in a row. *)
Fixpoint on_error_times (n : nat) : M Runtime unit :=
  match n with
  | O => ret tt
  | S n' => do _ <- on_error; on_error_times n'
  end.

(** What [log_raw] and [on_message_sent] read besides the state: the
    settings [core.log_raw] and [core.bind_host], which the record of
    settings above does not carry, and Python's [str.upper]. *)
Variable core_log_raw : bool.
Variable core_bind_host : option string.
Variable str_upper : string -> string.

(** AbstractBot.log_raw *)
Definition log_raw (line prefix : string) : M Runtime unit :=
  if negb core_log_raw then ret tt
  else emit (Log "sopel.raw" "info" ("%s" +:+ String "009"%char "%r")).

(** The host that the simulated echo is sent from. *)
Definition echo_host (b : Bot) : string :=
  let host := "localhost" in
  match core_bind_host with
  | Some h =>
      if nonempty h then h
      else match hostmask b with
           | Some m => if nonempty m then m else host
           | None => host
           end
  | None =>
      match hostmask b with
      | Some m => if nonempty m then m else host
      | None => host
      end
  end.

(** AbstractBot.on_message_sent *)
Definition on_message_sent (raw_line : string) : M Runtime unit :=
  do _ <- log_raw raw_line ">>";
  do b <- get_self;
  let no_echo := bool_decide ("echo-message" ∉ enabled_capabilities b) in
  let echoed := ["PRIVMSG"; "NOTICE"] in
  if no_echo
     && existsb (fun cmd => String.prefix cmd (str_upper raw_line)) echoed
  then
    let host := echo_host b in
    let pretrigger :=
      PreTrigger_new (_nick b)
        (":" +:+ raw (_nick b) +:+ "!" +:+ _user b +:+ "@" +:+ host
         +:+ " " +:+ raw_line)
        (auto_url_schemes (settings b)) (make_identifier b) in
    emit (Dispatch pretrigger)
  else ret tt.

End OtherMethods.

(** [str.upper] on the letters a to z; other bytes are left as they are. *)
Fixpoint ascii_upper (s : string) : string :=
  match s with
  | EmptyString => EmptyString
  | String a s' =>
      let n := nat_of_ascii a in
      String (if (97 <=? n)%nat && (n <=? 122)%nat then ascii_of_nat (n - 32)
              else a)
             (ascii_upper s')
  end.

(** *** Further sample states and lines *)

(** The default settings with [flood_text_length] left open. *)
Definition settings_with_text_length (n : Z) : Settings :=
  {| core_nick := "bot"; core_user := "b"; core_name := "Sopel";
     auto_url_schemes := ["http"; "https"; "ftp"];
     auth_method := None; auth_password := None;
     server_auth_method := None; server_auth_password := None;
     flood_max_wait := 2; flood_burst_lines := 4; flood_refill_rate := 1;
     flood_empty_wait := 7 # 10; flood_text_length := n;
     flood_penalty_ratio := 14 # 10;
     antiloop_threshold := 3; antiloop_window := 120;
     antiloop_repeat_text := "..."; antiloop_silent_after := 3 |}.

(** A running bot with a [flood_text_length] of zero that has sent one
    message to [#chan], at time 0, and has an empty bucket. *)
Definition drained_bot : Bot :=
  let b := with_backend (init (settings_with_text_length 0)) in
  set_stack
    {[ recipient_key b "#chan" := mkRecipientStack [(0%Q, "hi")] 0 ]} b.

(** A bot whose connection is registered, with [caps] enabled. *)
Definition registered_with (caps : gset string) (b : Bot) : Bot :=
  {| _user := _user b; _name := _name b; _isupport := _isupport b;
     _nick := _nick b; hostmask := hostmask b; backend := backend b;
     connection_registered := true;
     settings := settings b; enabled_capabilities := caps;
     _cap_reqs := _cap_reqs b; cap_lists := cap_lists b;
     last_error_timestamp := last_error_timestamp b;
     error_count := error_count b; stack := stack b; hasquit := hasquit b;
     wantsrestart := wantsrestart b; last_raw_line := last_raw_line b;
     batches := batches b |}.

(** A second stand-in for [sopel.trigger], which also knows two BATCH
    lines, a PING without arguments and a line with an [account] tag, and in
    which subscripting a pretrigger indexes its arguments. *)
Definition batch_pretrigger (message : string) : PreTrigger :=
  if String.eqb message "BATCH +ref1 chathistory" then
    mkPreTrigger message "BATCH" ["+ref1"; "chathistory"] ∅
  else if String.eqb message "BATCH * +ref1 chathistory" then
    mkPreTrigger message "BATCH" ["*"; "+ref1"; "chathistory"] ∅
  else if String.eqb message "PING" then
    mkPreTrigger message "PING" [] ∅
  else if String.eqb message "@account=alice :nick!u@h PRIVMSG #chan :hello" then
    mkPreTrigger message "PRIVMSG" ["#chan"; "hello"]
      {[ "account" := Some "alice" ]}
  else sample_pretrigger message.

Definition args_getitem (p : PreTrigger) (i : Z) : result string :=
  if i <? 0 then Err IndexError
  else match args p !! Z.to_nat i with
       | Some a => Ok a
       | None => Err IndexError
       end.

Lemma args_getitem_foreign p i :
  args_getitem p i <> Err (RuntimeError ERR_BACKEND_NOT_INITIALIZED).
Proof.
  unfold args_getitem. destruct (i <? 0); [discriminate |].
  destruct (_ !! _); discriminate.
Qed.

Definition ArgsFactory : TriggerFactory := {|
  PreTrigger_new := fun _ message _ _ => batch_pretrigger message;
  PreTrigger_getitem := args_getitem;
  getitem_foreign := args_getitem_foreign
|}.

(** A running bot on the sample settings, at a clock that stands still. *)
Definition running : Runtime :=
  start (with_backend (init sample_settings)) (mkClock (fun _ => 0%Q) 0).

(** *** Consistency of the recorded capability requests *)

(** The requests of one list carry the same argument, and no list holds a
    request that forbids together with one that requires. *)
Definition requests_consistent (l : list CapReq) : Prop :=
  (forall x y, x ∈ l -> y ∈ l -> arg x = arg y)
  /\ ~ (exists x y, x ∈ l /\ y ∈ l /\ prefix x = "-" /\ prefix y = "=").

Definition registry_consistent (b : Bot) : Prop :=
  Forall requests_consistent (cap_lists b).

End Irc.

(** * Properties *)

(** ** Strings *)

Lemma string_length_append (s t : string) :
  String.length (s +:+ t) = (String.length s + String.length t)%nat.
Proof. induction s as [| a s IH]; simpl; [reflexivity | now rewrite IH]. Qed.

Lemma encoded_len_append (s t : string) :
  Str.encoded_len (s +:+ t) = Str.encoded_len s + Str.encoded_len t.
Proof. unfold Str.encoded_len. rewrite string_length_append. lia. Qed.

Lemma append_empty (s : string) : s +:+ EmptyString = s.
Proof.
  induction s as [| a s IH]; [reflexivity |].
  change (String a (s +:+ EmptyString) = String a s). now f_equal.
Qed.

Lemma first_error (s : string) (e : exception) :
  Str.first s = Err e -> e = IndexError.
Proof. destruct s; simpl; congruence. Qed.

(** ** The evaluator of [sopel/tools/calculation.py] *)

Section CalculationFacts.
Import Calculation.
Context `{RT : PythonRuntime}.

Lemma depth_pos (n : node) : (0 < depth n)%nat.
Proof. destruct n; simpl; lia. Qed.

Lemma eval_node_at_sandboxed (frames : nat) (n : node) (timeout : Q) (c : Clock) :
  sandboxed frames n timeout c
    (fst (_eval_node_at frames EquationEvaluator n timeout c)).
Proof.
  revert n c. induction frames as [| frames IH]; intros n c.
  { simpl. right. left. split; [reflexivity | apply depth_pos]. }
  destruct n as [k | l op r | op x | | | | |];
    try (simpl; left; eexists; reflexivity).
  - destruct k; simpl; try reflexivity; left; eexists; reflexivity.
  - cbn [_eval_node_at].
    destruct (binary_ops EquationEvaluator op) as [f |] eqn:Hop;
      [| simpl; left; eexists; reflexivity].
    unfold bind at 1. pose proof (IH l c) as IHl.
    destruct (_eval_node_at frames EquationEvaluator l timeout c)
      as [[vl | el | xl] c1] eqn:Hl; cbn [fst] in IHl.
    + unfold bind at 1. pose proof (IH r c1) as IHr.
      destruct (_eval_node_at frames EquationEvaluator r timeout c1)
        as [[vr | er | xr] c2] eqn:Hr; cbn [fst] in IHr.
      * unfold bind, time_time.
        destruct (Qle_bool (readings c2 (reads c2)) timeout) eqn:Hnow;
          [| simpl; left; eexists; reflexivity].
        unfold lift. destruct (f vl vr) as [v | e] eqn:Hf; cbn [fst sandboxed].
        -- cbn [permitted]. cbn [binary_ops EquationEvaluator] in Hop.
           rewrite Hop. cbn in IHl, IHr. now rewrite IHl, IHr.
        -- right. right. eapply raised_by_binary; eassumption.
      * cbn [fst sandboxed] in *.
        destruct IHr as [Herr | [[-> Hdeep] | Hraised]].
        -- now left.
        -- right. left. split; [reflexivity | cbn [depth]; lia].
        -- right. right. eapply raised_in_right; eassumption.
      * contradiction.
    + cbn [fst sandboxed] in *.
      destruct IHl as [Herr | [[-> Hdeep] | Hraised]].
      * now left.
      * right. left. split; [reflexivity | cbn [depth]; lia].
      * right. right. eapply raised_in_left; eassumption.
    + contradiction.
  - cbn [_eval_node_at].
    destruct (unary_ops EquationEvaluator op) as [f |] eqn:Hop;
      [| simpl; left; eexists; reflexivity].
    unfold bind at 1. pose proof (IH x c) as IHx.
    destruct (_eval_node_at frames EquationEvaluator x timeout c)
      as [[v | ex | xx] c1] eqn:Hx; cbn [fst] in IHx.
    + unfold bind, time_time.
      destruct (Qle_bool (readings c1 (reads c1)) timeout) eqn:Hnow;
        [| simpl; left; eexists; reflexivity].
      unfold lift. destruct (f v) as [w | e] eqn:Hf; cbn [fst sandboxed].
      * cbn [permitted]. cbn [unary_ops EquationEvaluator] in Hop.
        rewrite Hop. cbn in IHx. now rewrite IHx.
      * right. right. eapply raised_by_unary; eassumption.
    + cbn [fst sandboxed] in *.
      destruct IHx as [Herr | [[-> Hdeep] | Hraised]].
      * now left.
      * right. left. split; [reflexivity | cbn [depth]; lia].
      * right. right. eapply raised_in_operand; eassumption.
    + contradiction.
Qed.

(** A node that is neither a numeric constant nor an operation is not
    evaluated: with a frame to run in, [_eval_node] raises
    [ExpressionEvaluator.Error] on it at once. *)
Lemma eval_node_at_unsupported (frames : nat) (n : node) (timeout : Q)
    (c : Clock) :
  permitted n = false ->
  is_operation n = false ->
  exists msg,
    _eval_node_at (S frames) EquationEvaluator n timeout c
    = (Raise (ExpressionEvaluatorError msg), c).
Proof.
  intros Hbad Hleaf.
  destruct n as [k | l op r | op x | | | | |]; try discriminate;
    try (eexists; reflexivity).
  destruct k; try discriminate; eexists; reflexivity.
Qed.

End CalculationFacts.

(** C10 (as amended).  For every input string, [eval_equation] ends in a
    number or in a raise, never in something else: the parser's exception
    when the string does not parse; otherwise a number only if the parsed
    expression consists of numeric constants, the eight permitted binary
    operators and unary plus and minus; and every raise is an
    [ExpressionEvaluator.Error], or [RecursionError] when the expression
    nests deeper than the interpreter allows, or the exception that the
    function of a permitted operator of the expression raised on the values
    of its operands, once these had been evaluated ([ValueError] from the
    guards of multiplication and power, but also what Python's arithmetic
    raises, such as [ZeroDivisionError]).  An expression with any other
    construct (a name, a call, an attribute access, a non-numeric constant)
    never yields a value, and such a construct is not evaluated: when it is
    the whole expression the result is [ExpressionEvaluator.Error].  The
    guards raise [ValueError] for integer products whose operands have more
    than 664386 bits together and for integer powers whose estimated cost is
    not below 0.5. *)
Theorem eval_equation_sandbox `{RT : Calculation.PythonRuntime}
    (equation : string) (timeout : Q) (c : Clock) :
  let o := fst (Calculation.eval_equation equation timeout c) in
  let deadline := Calculation.float_add (readings c (reads c)) timeout in
  let started := mkClock (readings c) (S (reads c)) in
  let raised_within n e :=
    Calculation.is_evaluator_error e
    \/ (e = RecursionError
        /\ (Calculation.recursion_limit < Calculation.depth n)%nat)
    \/ Calculation.operator_raised Calculation.EquationEvaluator deadline
         Calculation.recursion_limit n started e in
  (forall e, Calculation.ast_parse equation = Err e -> o = Raise e)
  /\ (forall n, Calculation.ast_parse equation = Ok n ->
      match o with
      | Return _ => Calculation.permitted n = true
      | Raise e => raised_within n e
      | Exit _ => False
      end)
  /\ (forall n, Calculation.ast_parse equation = Ok n ->
      Calculation.permitted n = false ->
      exists e, o = Raise e /\ raised_within n e)
  /\ (forall n, Calculation.ast_parse equation = Ok n ->
      Calculation.permitted n = false ->
      Calculation.is_operation n = false ->
      exists e, o = Raise e /\ Calculation.is_evaluator_error e)
  /\ (forall l r, Calculation.in_0_1 l = false -> Calculation.in_0_1 r = false ->
      Calculation.bit_length l + Calculation.bit_length r > 664386 ->
      exists msg, Calculation.guarded_mul (Calculation.VInt l) (Calculation.VInt r)
                  = Err (ValueError msg))
  /\ (forall n e cost, Calculation.pow_complexity n e = Ok cost ->
      Calculation.operator_lt cost (Calculation.VFloat 0.5) = Ok false ->
      exists msg, Calculation.guarded_pow (Calculation.VInt n) (Calculation.VInt e)
                  = Err (ValueError msg)).
Proof.
  intros o deadline started raised_within. subst o raised_within.
  unfold Calculation.eval_equation, Calculation.ExpressionEvaluator_call.
  assert (Hrun : forall n, Calculation.ast_parse equation = Ok n ->
    fst (bind (lift (Calculation.ast_parse equation))
           (fun body =>
              bind time_time
                (fun now =>
                   Calculation._eval_node Calculation.EquationEvaluator body
                     (Calculation.float_add now timeout))) c)
    = fst (Calculation._eval_node_at Calculation.recursion_limit
             Calculation.EquationEvaluator n deadline started)).
  { intros n Hn. unfold bind at 1, lift. rewrite Hn. reflexivity. }
  split; [| split; [| split; [| split; [| split]]]].
  - intros e He. unfold bind, lift. rewrite He. reflexivity.
  - intros n Hn. rewrite (Hrun n Hn).
    exact (eval_node_at_sandboxed Calculation.recursion_limit n deadline started).
  - intros n Hn Hbad. rewrite (Hrun n Hn).
    pose proof (eval_node_at_sandboxed Calculation.recursion_limit n deadline
                  started) as Hs.
    destruct (Calculation._eval_node_at _ _ n deadline started)
      as [[v | e' | x] c2]; simpl in Hs |- *.
    + congruence.
    + exists e'. split; [reflexivity | assumption].
    + contradiction.
  - intros n Hn Hbad Hleaf. rewrite (Hrun n Hn).
    pose proof Calculation.recursion_limit_pos as Hpos.
    destruct Calculation.recursion_limit as [| frames]; [lia |].
    destruct (eval_node_at_unsupported frames n deadline started Hbad Hleaf)
      as [msg Hmsg].
    rewrite Hmsg. eexists. split; [reflexivity | eexists; reflexivity].
  - intros l r Hl Hr Hbits. unfold Calculation.guarded_mul. simpl.
    rewrite Hl, Hr. simpl.
    destruct (Z.gtb_spec (Calculation.bit_length l + Calculation.bit_length r) 664386);
      [eexists; reflexivity | lia].
  - intros n e cost Hc Hlt. unfold Calculation.guarded_pow. simpl.
    rewrite Hc. simpl. rewrite Hlt. simpl. eexists; reflexivity.
Qed.

(** The run of ["1/0 + x"]: the division, which is evaluated first, raises
    before the name is reached, and a name alone is refused. *)
Lemma eval_equation_sandbox_witness :
  (exists e,
    fst (Calculation.eval_equation (RT := Calculation.IntegerRuntime)
           "1/0 + x" 5 Calculation.still_clock) = Raise e
    /\ (Calculation.is_evaluator_error e
        \/ (e = RecursionError
            /\ (1000
                < Calculation.depth
                    (Calculation.BinOp
                       (Calculation.BinOp
                          (Calculation.Constant (Calculation.CInt 1))
                          Calculation.Div
                          (Calculation.Constant (Calculation.CInt 0)))
                       Calculation.Add (Calculation.Name "x")))%nat)
        \/ Calculation.operator_raised
             (Calculation.EquationEvaluator (RT := Calculation.IntegerRuntime))
             5 1000
             (Calculation.BinOp
                (Calculation.BinOp (Calculation.Constant (Calculation.CInt 1))
                   Calculation.Div (Calculation.Constant (Calculation.CInt 0)))
                Calculation.Add (Calculation.Name "x"))
             (mkClock (fun _ => 0%Q) 1) e)).
Proof.
  destruct (eval_equation_sandbox (RT := Calculation.IntegerRuntime)
              "1/0 + x" 5 Calculation.still_clock) as (_ & _ & Hbad & _).
  exact (Hbad _ eq_refl eq_refl).
Defined.

(** C10: the statement as written fails.  [eval_equation("1/0")] raises
    [ZeroDivisionError], which is neither a number nor one of the three
    listed exceptions; and ["1/0 + x"], which contains a name, raises
    [ZeroDivisionError] too, not [ExpressionEvaluator.Error], because the
    left operand is evaluated before the name is looked at. *)
Lemma eval_equation_zero_division :
  fst (Calculation.eval_equation (RT := Calculation.IntegerRuntime)
         "1/0" 5 Calculation.still_clock) = Raise ZeroDivisionError
  /\ ~ Calculation.listed_outcome
         (fst (Calculation.eval_equation (RT := Calculation.IntegerRuntime)
                 "1/0" 5 Calculation.still_clock))
  /\ fst (Calculation.eval_equation (RT := Calculation.IntegerRuntime)
            "1/0 + x" 5 Calculation.still_clock) = Raise ZeroDivisionError.
Proof.
  split; [vm_compute; reflexivity | split; [| vm_compute; reflexivity]].
  intros Hl. vm_compute in Hl. exact Hl.
Qed.

(** ** The session controller of [sopel/irc/__init__.py] *)

Section IrcFacts.
Import Irc.
Context `{TF : TriggerFactory}.

Ltac run :=
  cbv [bind ret raise lift get_self update_self emit LOGGER now time_time
       os_exit require_backend];
  cbn [fst snd self clock trace readings reads].

(** Case analysis on a scrutinee that contains no further [match]. *)
Ltac case_innermost :=
  match goal with
  | |- context [match ?x with _ => _ end] =>
      lazymatch x with
      | context [match _ with _ => _ end] => fail
      | _ => destruct x eqn:?; cbn
      end
  end.

Lemma safe_text_length_unfold (b : Bot) (recipient : string) :
  safe_text_length b recipient =
    default 512 (LINELEN (_isupport b))
    - 14
    - match hostmask b with
      | Some h => Str.len h
      | None => Str.len (raw (_nick b))
                + Z.min (Str.len (_user b)) (default 9 (USERLEN (_isupport b)))
                + 66
      end
    - Str.encoded_len recipient.
Proof.
  unfold safe_text_length.
  destruct (LINELEN (_isupport b)), (hostmask b), (USERLEN (_isupport b));
    simpl; lia.
Qed.

Lemma Qlt_bool_iff (x y : Q) : Qlt_bool x y = true <-> (x < y)%Q.
Proof.
  unfold Qlt_bool. rewrite Bool.negb_true_iff.
  split.
  - intros Hb. apply Qnot_le_lt. intros Hle.
    apply Qle_bool_iff in Hle. congruence.
  - intros Hlt. destruct (Qle_bool y x) eqn:Hb; [| reflexivity].
    apply Qle_bool_iff in Hb. exfalso. exact (Qlt_not_le _ _ Hlt Hb).
Qed.


Lemma on_error_few (rt : Runtime) :
  error_count (self rt) <= 10 ->
  exists rt',
    on_error rt = (Return tt, rt')
    /\ error_count (self rt') = error_count (self rt) + 1
    /\ last_error_timestamp (self rt')
       = Some (readings (clock rt) (reads (clock rt)))
    /\ wire_calls (trace rt') = wire_calls (trace rt).
Proof.
  intros Hle. unfold on_error. run.
  destruct (Z.gtb_spec (error_count (self rt)) 10) as [Hgt | _]; [lia |].
  eexists. split; [reflexivity |]. cbn.
  repeat split.
  unfold wire_calls. rewrite <- !app_assoc, omap_app. cbn.
  apply app_nil_r.
Qed.

Lemma on_error_storm (rt : Runtime) :
  error_count (self rt) > 10 ->
  (seconds_since_last_error rt < 5)%Q ->
  exists rt',
    on_error rt = (Exit 1, rt')
    /\ self rt' = self rt
    /\ wire_calls (trace rt') = wire_calls (trace rt).
Proof.
  intros Hgt Hdt. unfold on_error. run.
  destruct (Z.gtb_spec (error_count (self rt)) 10) as [_ | Hle]; [| lia].
  unfold seconds_since_last_error in Hdt.
  destruct (last_error_timestamp (self rt)) as [t |]; cbn.
  - apply Qlt_bool_iff in Hdt. rewrite Hdt. cbn.
    eexists. split; [reflexivity |]. cbn. split; [reflexivity |].
    unfold wire_calls. rewrite <- !app_assoc, omap_app. cbn. apply app_nil_r.
  - eexists. split; [reflexivity |]. cbn. split; [reflexivity |].
    unfold wire_calls. rewrite <- !app_assoc, omap_app. cbn. apply app_nil_r.
Qed.

Lemma on_error_decay (rt : Runtime) :
  error_count (self rt) > 10 ->
  ~ (seconds_since_last_error rt < 5)%Q ->
  exists rt',
    on_error rt = (Return tt, rt')
    /\ error_count (self rt')
       = Z.max 0 (error_count (self rt)
                  - Qfloor (seconds_since_last_error rt / 5)) + 1
    /\ last_error_timestamp (self rt')
       = Some (readings (clock rt) (S (reads (clock rt)))).
Proof.
  intros Hgt Hdt. unfold on_error. run.
  destruct (Z.gtb_spec (error_count (self rt)) 10) as [_ | Hle]; [| lia].
  unfold seconds_since_last_error in *.
  destruct (last_error_timestamp (self rt)) as [t |]; cbn.
  - destruct (Qlt_bool _ 5) eqn:Hb.
    + apply Qlt_bool_iff in Hb. contradiction.
    + cbn. eexists. split; [reflexivity |]. cbn. split; reflexivity.
  - exfalso. apply Hdt. reflexivity.
Qed.

(** *** The backend guard *)

Lemma say_rec_no_backend fuel text recipient max_messages truncation trailing rt :
  backend (self rt) = None ->
  say_rec fuel text recipient max_messages truncation trailing rt
  = (Raise backend_error, rt).
Proof.
  intros Hnone. destruct fuel; simpl; run; rewrite Hnone; reflexivity.
Qed.

Lemma say_sending_backend text recipient rt :
  backend (self (snd (say_sending text recipient rt))) = backend (self rt)
  /\ fst (say_sending text recipient rt) <> Raise backend_error.
Proof.
  unfold say_sending, set_recipient_stack, flood_penalty. run.
  repeat case_innermost;
    (split; [reflexivity | unfold backend_error; discriminate]).
Qed.


Ltac proj :=
  cbv beta iota;
  cbn [fst snd self clock trace stack backend settings set_stack readings reads
       stack_messages flood_left].

Lemma say_sending_run text recipient rt penalty :
  let b := self rt in
  let s := settings b in
  let rs := recipient_stack_of b recipient in
  let elapsed := elapsed_of rt recipient in
  let bucket := bucket_of rt recipient in
  (bucket = 0 -> flood_penalty s text = Ok penalty) ->
  exists rt',
    match loop_detection s elapsed (stack_messages rs) text with
    | Some t =>
        say_sending text recipient rt = (Return true, rt')
        /\ trace rt' = trace rt ++ flood_events s elapsed bucket penalty
                       ++ [Wire (send_privmsg recipient t)]
        /\ exists time,
            stack (self rt') !! recipient_key b recipient
            = Some (mkRecipientStack
                      (deque_append (stack_messages rs) (time, safe t))
                      (Z.max 0 (bucket - 1)))
    | None =>
        say_sending text recipient rt = (Return false, rt')
        /\ trace rt' = trace rt ++ flood_events s elapsed bucket penalty
        /\ stack (self rt') !! recipient_key b recipient
           = Some (mkRecipientStack (stack_messages rs) bucket)
    end.
Proof.
  intros b s rs elapsed bucket Hpen.
  subst b s rs elapsed bucket.
  unfold say_sending, set_recipient_stack, bucket_of, flood_events in *.
  unfold elapsed_of in *.
  run.
  set (key := recipient_key (self rt) recipient) in *.
  assert (Hrs : stack (self rt) !! key = None
                \/ stack (self rt) !! key
                   = Some (recipient_stack_of (self rt) recipient)).
  { unfold recipient_stack_of. fold key.
    destruct (stack (self rt) !! key); [right | left]; reflexivity. }
  set (rs := recipient_stack_of (self rt) recipient) in *.
  clearbody rs.
  destruct Hrs as [Hrs | Hrs]; rewrite Hrs; proj;
    (destruct (last (stack_messages rs)) as [[t m] |]; proj);
    (destruct (flood_left rs =? 0) eqn:Hfl; proj);
    try (destruct (flood_refill _ _ =? 0) eqn:Hre; proj;
         [rewrite Hpen by (now apply Z.eqb_eq); proj;
          destruct (Qlt_bool _ (flood_wait _ _)); proj |]);
    rewrite ?Hfl; proj;
    (destruct (loop_detection _ _ _ _); proj);
    (eexists; split; [reflexivity |]; proj;
     rewrite <- ?app_assoc, ?app_nil_r; split; [reflexivity |]);
    try (eexists; apply lookup_insert_eq);
    try apply lookup_insert_eq.
  all: destruct rs; first [apply lookup_insert_eq | exact Hrs].
Qed.

(** *** Flood-control arithmetic *)

Lemma Qint_floor (x : Q) : (0 <= x)%Q -> Qint x = Qfloor x.
Proof.
  destruct x as [n d]. unfold Qle, Qint, Qfloor. simpl. intros Hn.
  apply Z.quot_div_nonneg; lia.
Qed.

Lemma flood_refill_spec (s : Settings) (elapsed : Q) :
  (0 <= elapsed)%Q -> flood_refill s elapsed = spec_refill s elapsed.
Proof.
  intros Hpos. unfold flood_refill, spec_refill. now rewrite Qint_floor.
Qed.

Lemma flood_penalty_spec (s : Settings) (text : string) :
  penalty_defined s -> flood_penalty s text = Ok (spec_penalty s text).
Proof.
  intros Hdef. unfold flood_penalty, spec_penalty.
  destruct (Qlt_bool 0 (flood_penalty_ratio s)) eqn:Hratio; [| reflexivity].
  apply Qlt_bool_iff in Hratio. specialize (Hdef Hratio).
  destruct (Qeq_bool _ 0) eqn:Hzero; [| reflexivity].
  apply Qeq_bool_iff in Hzero. contradiction.
Qed.



Lemma flood_events_quiet s elapsed bucket penalty :
  wire_calls (flood_events s elapsed bucket penalty) = []
  /\ dispatched (flood_events s elapsed bucket penalty) = [].
Proof.
  unfold flood_events. destruct (_ && _); split; reflexivity.
Qed.


Lemma say_rec_step fuel text recipient max_messages truncation trailing rt be :
  backend (self rt) = Some be ->
  say_rec fuel text recipient max_messages truncation trailing rt
  = let '(text1, excess) :=
      say_split (self rt) text recipient max_messages truncation trailing in
    match say_sending text1 recipient rt with
    | (Return sent, rt') =>
        if sent && (max_messages >? 1) && nonempty excess then
          match fuel with
          | S fuel' =>
              say_rec fuel' excess recipient (max_messages - 1)
                truncation trailing rt'
          | O => (Raise ERR_RECURSION, rt')
          end
        else (Return tt, rt')
    | (Raise e, rt') => (Raise e, rt')
    | (Exit c, rt') => (Exit c, rt')
    end.
Proof.
  intros Hbe. destruct fuel; cbn [say_rec]; run; rewrite Hbe; cbv beta iota;
    destruct (say_split _ _ _ _ _ _) as [text1 excess];
    (destruct (say_sending text1 recipient rt) as [[sent | e | c] rt'];
     [| reflexivity | reflexivity]);
    destruct (sent && (max_messages >? 1) && nonempty excess); reflexivity.
Qed.

Lemma say_rec_backend fuel text recipient max_messages truncation trailing rt :
  backend (self rt) <> None ->
  fst (say_rec fuel text recipient max_messages truncation trailing rt)
  <> Raise backend_error.
Proof.
  revert text max_messages rt.
  induction fuel as [| fuel IH]; intros text max_messages rt Hbe;
    (destruct (backend (self rt)) as [be |] eqn:Hb; [clear Hbe | congruence]);
    rewrite (say_rec_step _ _ _ _ _ _ _ be Hb);
    destruct (say_split _ _ _ _ _ _) as [text1 excess];
    pose proof (say_sending_backend text1 recipient rt) as [Hkeep Hsafe];
    (destruct (say_sending text1 recipient rt) as [[sent | e | c] rt'];
     cbn [fst snd] in *;
     [| intros [= ->]; now apply Hsafe | discriminate]);
    destruct (sent && (max_messages >? 1) && nonempty excess);
    try discriminate.
  apply IH. rewrite Hkeep, Hb. discriminate.
Qed.

Lemma say_sending_keeps text recipient rt :
  settings (self (snd (say_sending text recipient rt))) = settings (self rt)
  /\ exists post,
      trace (snd (say_sending text recipient rt)) = trace rt ++ post.
Proof.
  unfold say_sending, set_recipient_stack. run.
  repeat case_innermost;
    (split; [reflexivity |]); rewrite <- ?app_assoc;
    first [ exists []; now rewrite app_nil_r | eexists; reflexivity ].
Qed.

(** With the penalty defined the block always comes to its end. *)
Lemma say_sending_returns text recipient rt :
  penalty_defined (settings (self rt)) ->
  exists sent, fst (say_sending text recipient rt) = Return sent.
Proof.
  intros Hdef.
  destruct (say_sending_run text recipient rt
              (spec_penalty (settings (self rt)) text)
              (fun _ => flood_penalty_spec _ text Hdef)) as [rt' Hrun].
  destruct (loop_detection _ _ _ _); destruct Hrun as [Hrun _];
    rewrite Hrun; eauto.
Qed.

Lemma say_rec_returns fuel text recipient max_messages truncation trailing rt :
  (Z.to_nat max_messages <= fuel)%nat ->
  penalty_defined (settings (self rt)) ->
  backend (self rt) <> None ->
  fst (say_rec fuel text recipient max_messages truncation trailing rt)
  = Return tt.
Proof.
  revert text max_messages rt.
  induction fuel as [| fuel IH]; intros text max_messages rt Hfuel Hdef Hbe;
    (destruct (backend (self rt)) as [be |] eqn:Hb; [clear Hbe | congruence]);
    rewrite (say_rec_step _ _ _ _ _ _ _ be Hb);
    destruct (say_split _ _ _ _ _ _) as [text1 excess];
    destruct (say_sending_returns text1 recipient rt Hdef) as [sent Hsent];
    pose proof (say_sending_backend text1 recipient rt) as [Hkeep _];
    pose proof (say_sending_keeps text1 recipient rt) as [Hset _];
    destruct (say_sending text1 recipient rt) as [o rt'];
    cbn [fst snd] in *; subst o;
    destruct (max_messages >? 1) eqn:Hmany;
    rewrite ?Bool.andb_false_r; cbn [andb]; try reflexivity;
    (destruct (sent && true && nonempty excess); [| reflexivity]);
    apply Z.gtb_lt in Hmany.
  - lia.
  - apply IH; [lia | now rewrite Hset | rewrite Hkeep, Hb; discriminate].
Qed.


(** A call for at most one message is one run of the block. *)
Lemma say_single text recipient max_messages truncation trailing rt :
  max_messages <= 1 ->
  backend (self rt) <> None ->
  say text recipient max_messages truncation trailing rt
  = match say_sending
            (fst (say_split (self rt) text recipient max_messages
                    truncation trailing)) recipient rt with
    | (Return _, rt') => (Return tt, rt')
    | (Raise e, rt') => (Raise e, rt')
    | (Exit c, rt') => (Exit c, rt')
    end.
Proof.
  intros Hone Hbe. unfold say.
  destruct (backend (self rt)) as [be |] eqn:Hb; [clear Hbe | congruence].
  rewrite (say_rec_step _ _ _ _ _ _ _ be Hb).
  destruct (say_split _ _ _ _ _ _) as [text1 excess]. cbn [fst].
  destruct (say_sending text1 recipient rt) as [[sent | e | c] rt'];
    try reflexivity.
  destruct (Z.gtb_spec max_messages 1) as [Hgt | _]; [lia |].
  now rewrite Bool.andb_false_r.
Qed.



Lemma loop_detection_nothing_sent s elapsed text :
  loop_detection s elapsed [] text = Some text.
Proof.
  unfold loop_detection.
  destruct (Z.gtb_spec (Z.min 10 (antiloop_threshold s)) 0); [| reflexivity].
  destruct (Qlt_bool elapsed (antiloop_window s)); [| reflexivity].
  cbn [andb map]. unfold count_of at 1. cbn. change (Z.of_nat 0) with 0.
  destruct (Z.geb_spec 0 (Z.min 10 (antiloop_threshold s))); [lia | reflexivity].
Qed.

Lemma say_split_default (b : Bot) (text recipient : string) :
  say_split b text recipient 1 EmptyString EmptyString = (text, EmptyString).
Proof. unfold say_split. cbn. now rewrite append_empty. Qed.

Lemma say_sending_error text recipient rt e :
  fst (say_sending text recipient rt) = Raise e -> e = ZeroDivisionError.
Proof.
  unfold say_sending, set_recipient_stack, flood_penalty. run.
  repeat case_innermost; congruence.
Qed.

(** [say] never runs out of fuel. *)
Lemma say_rec_never_out_of_fuel fuel text recipient max_messages truncation
    trailing rt :
  (Z.to_nat max_messages <= fuel)%nat ->
  fst (say_rec fuel text recipient max_messages truncation trailing rt)
  <> Raise ERR_RECURSION.
Proof.
  revert text max_messages rt.
  induction fuel as [| fuel IH]; intros text max_messages rt Hfuel;
    (destruct (backend (self rt)) as [be |] eqn:Hb;
     [| rewrite say_rec_no_backend by assumption; discriminate]);
    rewrite (say_rec_step _ _ _ _ _ _ _ be Hb);
    destruct (say_split _ _ _ _ _ _) as [text1 excess];
    pose proof (say_sending_error text1 recipient rt) as Herr;
    (destruct (say_sending text1 recipient rt) as [[sent | e | c] rt'];
     cbn [fst] in *;
     [| intros [= ->]; specialize (Herr _ eq_refl); discriminate
      | discriminate]);
    (destruct (sent && (max_messages >? 1) && nonempty excess) eqn:Hmore;
     [| discriminate]);
    apply Bool.andb_true_iff in Hmore as [Hmore _];
    apply Bool.andb_true_iff in Hmore as [_ Hmany]; apply Z.gtb_lt in Hmany.
  - lia.
  - apply IH. lia.
Qed.

(** The fuel that [say] starts with is enough: more fuel changes nothing. *)
Lemma say_rec_fuel fuel text recipient max_messages truncation trailing rt :
  (Z.to_nat max_messages <= fuel)%nat ->
  say_rec fuel text recipient max_messages truncation trailing rt
  = say text recipient max_messages truncation trailing rt.
Proof.
  unfold say. revert text max_messages rt.
  induction fuel as [| fuel IH]; intros text max_messages rt Hfuel.
  - replace (Z.to_nat max_messages) with 0%nat by lia. reflexivity.
  - destruct (backend (self rt)) as [be |] eqn:Hb;
      [| now rewrite !say_rec_no_backend].
    rewrite !(say_rec_step _ _ _ _ _ _ _ be Hb).
    destruct (say_split _ _ _ _ _ _) as [text1 excess].
    destruct (say_sending text1 recipient rt) as [[sent | e | c] rt'];
      try reflexivity.
    destruct (sent && (max_messages >? 1) && nonempty excess) eqn:Hmore;
      [| reflexivity].
    apply Bool.andb_true_iff in Hmore as [Hmore _].
    apply Bool.andb_true_iff in Hmore as [_ Hmany]. apply Z.gtb_lt in Hmany.
    destruct (Z.to_nat max_messages) as [| k] eqn:Hk; [lia |].
    rewrite IH by lia. f_equal. lia.
Qed.

Lemma say_backend text recipient max_messages truncation trailing rt :
  backend (self rt) <> None ->
  fst (say text recipient max_messages truncation trailing rt)
  <> Raise backend_error.
Proof. apply say_rec_backend. Qed.

Lemma on_message_backend message rt :
  backend (self rt) <> None ->
  fst (on_message message rt) <> Raise backend_error.
Proof.
  intros Hb. unfold backend_error, on_message, Batch_new, BatchType_of, rbind.
  run. destruct (backend (self rt)); [clear Hb | congruence]. cbn.
  repeat case_innermost; try discriminate;
    intros [= ->];
    first [ eapply getitem_foreign; eassumption
          | match goal with
            | Hf : Str.first _ = Err _ |- _ => apply first_error in Hf; discriminate
            end ].
Qed.

Lemma on_connect_backend rt :
  backend (self rt) <> None ->
  fst (on_connect rt) <> Raise backend_error.
Proof.
  intros Hb. unfold backend_error, on_connect. run.
  destruct (backend (self rt)); [clear Hb | congruence]. cbn.
  repeat case_innermost; discriminate.
Qed.

(** With no backend each method raises at once and leaves the state,
    trace included, as it was. *)
(** *** The capability registry *)

Lemma cap_req_unfold plugin_name capability arg failure_callback success_callback
    rt prefix :
  Str.first capability = Ok prefix ->
  cap_req plugin_name capability arg failure_callback success_callback rt
  = let b := self rt in
    let cap := Str.rest capability in
    let entry := requests_for b cap in
    let stored key prefix :=
      (Return tt,
       mkRuntime
         (store_entry key (_cap_reqs b !! cap)
            (mkCapReq prefix plugin_name failure_callback arg success_callback) b)
         (clock rt) (trace rt)) in
    if existsb (fun ent => negb (bool_decide (Irc.arg ent = arg))) entry
    then (Raise (Exception ERR_CAPABILITY_CONFLICT), rt)
    else if String.eqb prefix "-" then
      if connection_registered b && bool_decide (cap ∈ enabled_capabilities b)
      then (Raise (Exception ERR_CAPABILITY_LATE), rt)
      else if existsb (fun ent => negb (String.eqb (Irc.prefix ent) "-")) entry
      then (Raise (Exception ERR_CAPABILITY_CONFLICT), rt)
      else stored cap prefix
    else if String.eqb prefix "=" then
      if connection_registered b && bool_decide (cap ∉ enabled_capabilities b)
      then (Raise (Exception ERR_CAPABILITY_LATE), rt)
      else if existsb (fun ent => String.eqb (Irc.prefix ent) "-") entry
      then (Raise (Exception ERR_CAPABILITY_CONFLICT), rt)
      else stored cap prefix
    else
      if connection_registered b
         && bool_decide (capability ∉ enabled_capabilities b)
      then (Raise (Exception ERR_CAPABILITY_LATE), rt)
      else stored capability EmptyString.
Proof.
  intros Hfirst. unfold cap_req, requests_for. run. rewrite Hfirst. cbv beta iota.
  repeat case_innermost; try reflexivity; cbn in *; try congruence;
    rewrite ?Bool.andb_false_r, ?Bool.andb_true_r in *; congruence.
Qed.

Lemma existsb_Exists {A} (f : A -> bool) (P : A -> Prop) (l : list A) :
  (forall x, P x -> f x = true) -> Exists P l -> existsb f l = true.
Proof.
  intros Hf Hex. induction Hex as [x l Hx | x l _ IH]; simpl.
  - now rewrite (Hf x Hx).
  - rewrite IH. apply Bool.orb_true_r.
Qed.

Lemma requests_after_store (b : Bot) (cap key : string) (req : CapReq) :
  registry_ok b ->
  requests_for (store_entry key (_cap_reqs b !! cap) req b) key
  = requests_for b cap ++ [req].
Proof.
  intros Hok. unfold requests_for, store_entry.
  destruct (_cap_reqs b !! cap) as [l |] eqn:Hl; cbn.
  - rewrite lookup_insert_eq.
    rewrite list_lookup_insert_eq by exact (Hok _ _ Hl). reflexivity.
  - rewrite lookup_insert_eq.
    rewrite lookup_app_r by reflexivity. now rewrite Nat.sub_diag.
Qed.

(** The argument check looks at the requests recorded under
    [capability[1:]], whatever the first character is. *)
Lemma cap_req_arg_conflict plugin_name capability arg failure_callback
    success_callback rt prefix :
  Str.first capability = Ok prefix ->
  Exists (fun ent => Irc.arg ent <> arg)
    (requests_for (self rt) (Str.rest capability)) ->
  cap_req plugin_name capability arg failure_callback success_callback rt
  = (Raise (Exception ERR_CAPABILITY_CONFLICT), rt).
Proof.
  intros Hfirst Hex. rewrite (cap_req_unfold _ _ _ _ _ _ _ Hfirst). cbv zeta.
  rewrite (existsb_Exists _ (fun ent => Irc.arg ent <> arg)); [reflexivity | | exact Hex].
  intros x Hx. apply Bool.negb_true_iff. apply bool_decide_eq_false. exact Hx.
Qed.

Lemma cap_req_forbid_conflict plugin_name capability arg failure_callback
    success_callback rt :
  Str.first capability = Ok "-" ->
  Exists (fun ent => Irc.prefix ent <> "-")
    (requests_for (self rt) (Str.rest capability)) ->
  exists e,
    cap_req plugin_name capability arg failure_callback success_callback rt
    = (Raise e, rt)
    /\ capability_conflict e
    /\ (connection_registered (self rt) = false ->
        e = Exception ERR_CAPABILITY_CONFLICT).
Proof.
  intros Hfirst Hex. rewrite (cap_req_unfold _ _ _ _ _ _ _ Hfirst). cbv zeta.
  rewrite (existsb_Exists (fun ent => negb (String.eqb (Irc.prefix ent) "-"))
             (fun ent => Irc.prefix ent <> "-"));
    [| intros x Hx; apply Bool.negb_true_iff; apply String.eqb_neq; exact Hx
     | exact Hex].
  unfold capability_conflict.
  destruct (existsb _ _); [eauto 6 |]. cbn [String.eqb Ascii.eqb Bool.eqb].
  destruct (connection_registered (self rt)); cbn [andb];
    [destruct (bool_decide _) |]; eexists; (split; [reflexivity |]);
    (split; [auto | congruence || auto]).
Qed.

Lemma cap_req_require_conflict plugin_name capability arg failure_callback
    success_callback rt :
  Str.first capability = Ok "=" ->
  Exists (fun ent => Irc.prefix ent = "-")
    (requests_for (self rt) (Str.rest capability)) ->
  exists e,
    cap_req plugin_name capability arg failure_callback success_callback rt
    = (Raise e, rt)
    /\ capability_conflict e
    /\ (connection_registered (self rt) = false ->
        e = Exception ERR_CAPABILITY_CONFLICT).
Proof.
  intros Hfirst Hex. rewrite (cap_req_unfold _ _ _ _ _ _ _ Hfirst). cbv zeta.
  rewrite (existsb_Exists (fun ent => String.eqb (Irc.prefix ent) "-")
             (fun ent => Irc.prefix ent = "-"));
    [| intros x Hx; apply String.eqb_eq; exact Hx | exact Hex].
  unfold capability_conflict.
  destruct (existsb _ _); [eauto 6 |]. cbn [String.eqb Ascii.eqb Bool.eqb].
  destruct (connection_registered (self rt)); cbn [andb];
    [destruct (bool_decide _) |]; eexists; (split; [reflexivity |]);
    (split; [auto | congruence || auto]).
Qed.

(** What a successful prefixed request leaves in the registry. *)
Lemma cap_req_recorded plugin_name capability arg failure_callback
    success_callback rt rt' prefix :
  Str.first capability = Ok prefix ->
  prefix = "-" \/ prefix = "=" ->
  registry_ok (self rt) ->
  cap_req plugin_name capability arg failure_callback success_callback rt
  = (Return tt, rt') ->
  requests_for (self rt') (Str.rest capability)
  = requests_for (self rt) (Str.rest capability)
    ++ [mkCapReq prefix plugin_name failure_callback arg success_callback].
Proof.
  intros Hfirst Hp Hok. rewrite (cap_req_unfold _ _ _ _ _ _ _ Hfirst). cbv zeta.
  destruct (existsb _ _); [discriminate |].
  destruct Hp as [-> | ->]; cbn [String.eqb Ascii.eqb Bool.eqb];
    (destruct (_ && _); [discriminate |]);
    (destruct (existsb _ _); [discriminate |]);
    intros [= <-]; cbn [self]; now apply requests_after_store.
Qed.

(** *** Batches *)

Lemma pretrigger_of_fields (b : Bot) (message : string) :
  event (pretrigger_of b message) = event (parse_line b message)
  /\ args (pretrigger_of b message) = args (parse_line b message)
  /\ tags (pretrigger_of b message) !! "batch"
     = tags (parse_line b message) !! "batch".
Proof.
  unfold pretrigger_of. destruct (_ && _); cbn; repeat split.
  now rewrite lookup_delete_ne.
Qed.

Lemma on_message_member (message r : string) (rt : Runtime) :
  let p := pretrigger_of (self rt) message in
  backend (self rt) <> None ->
  event p <> "BATCH" -> event p <> "PING" -> event p <> "ERROR" ->
  tags p !! "batch" = Some (Some r) ->
  is_Some (batches (self rt) !! r) ->
  exists rt',
    on_message message rt = (Return tt, rt')
    /\ trace rt' = trace rt ++ [Dispatch p]
    /\ batches (self rt') = batches (self rt).
Proof.
  intros p Hbe Hbatch Hping Herror Htag [batch Hopen].
  pose proof (pretrigger_of_fields (self rt) message) as (He & Ha & Ht).
  fold p in He, Ha, Ht. rewrite Ht in Htag. rewrite He in Hbatch, Hping, Herror.
  apply String.eqb_neq in Hbatch, Hping, Herror.
  subst p. unfold pretrigger_of, on_message, parse_line, make_identifier in *. run.
  destruct (backend (self rt)); [clear Hbe | congruence]. cbn.
  destruct (_ && _); cbn; rewrite Hbatch; cbn;
    rewrite ?lookup_delete_ne by discriminate; rewrite Htag; cbn;
    rewrite Hopen; cbn; try rewrite bool_decide_eq_false_2 by discriminate; cbn;
    rewrite Hping, Herror; cbn; eexists; repeat split.
Qed.

Lemma on_message_close (message : string) (rt : Runtime) (marker : string) :
  let p := pretrigger_of (self rt) message in
  backend (self rt) <> None ->
  event p = "BATCH" ->
  args p !! 1%nat = Some marker ->
  Str.first marker = Ok "-" ->
  batches (self (snd (on_message message rt))) = batches (self rt)
  /\ (dispatched (trace (snd (on_message message rt))) = dispatched (trace rt)
      \/ dispatched (trace (snd (on_message message rt)))
         = dispatched (trace rt) ++ [p])
  /\ (batches (self rt) !! "-" = None ->
      fst (on_message message rt) = Raise (KeyError "-")
      /\ trace (snd (on_message message rt)) = trace rt).
Proof.
  intros p Hbe Hbatch Hargs Hfirst.
  pose proof (pretrigger_of_fields (self rt) message) as (He & Ha & _).
  fold p in He, Ha. rewrite He in Hbatch. rewrite Ha in Hargs.
  apply String.eqb_eq in Hbatch.
  subst p. unfold pretrigger_of, on_message, dispatched, parse_line, make_identifier in *. run.
  destruct (backend (self rt)); [clear Hbe | congruence]. cbn.
  destruct (_ && _); cbn; rewrite Hbatch; cbn; rewrite Hargs; cbn;
    rewrite Hfirst; cbn;
    (destruct (batches (self rt) !! "-") eqn:Hdash; cbn;
     [| repeat split; auto]);
    repeat case_innermost;
    rewrite ?omap_app; cbn; rewrite ?app_nil_r;
    (split; [reflexivity |]); (split; [auto | discriminate]).
Qed.

Lemma no_backend_raises rt :
  backend (self rt) = None ->
  transport_methods (fun A (m : M Runtime A) => m rt = (Raise backend_error, rt)).
Proof.
  intros Hnone. unfold transport_methods. repeat split; intros;
    try (apply say_rec_no_backend; assumption);
    unfold notice, join, part, kick, quit, write, on_connect, on_message;
    run; rewrite Hnone; reflexivity.
Qed.

Lemma backend_never_missing rt :
  backend (self rt) <> None ->
  transport_methods (fun A (m : M Runtime A) => fst (m rt) <> Raise backend_error).
Proof.
  intros Hb. unfold transport_methods. repeat split; intros;
    try (apply say_backend; assumption);
    try (apply on_connect_backend; assumption);
    try (apply on_message_backend; assumption);
    unfold notice, join, part, kick, quit, write; run;
    (destruct (backend (self rt)); [| congruence]); discriminate.
Qed.

End IrcFacts.

(** C9.  Each of [say], [notice], [join], [part], [kick], [quit], [write],
    [on_connect] and [on_message] raises
    [RuntimeError(ERR_BACKEND_NOT_INITIALIZED)] at once when the backend is
    [None], leaving the state and the trace untouched, so that nothing went
    on the wire; with a backend present none of them raises that error. *)
Theorem backend_guard `{TF : Irc.TriggerFactory} (rt : Irc.Runtime) :
  (Irc.backend (Irc.self rt) = None ->
   Irc.transport_methods
     (fun A (m : M Irc.Runtime A) => m rt = (Raise Irc.backend_error, rt)))
  /\ (Irc.backend (Irc.self rt) <> None ->
      Irc.transport_methods
        (fun A (m : M Irc.Runtime A) => fst (m rt) <> Raise Irc.backend_error)).
Proof.
  split; [apply no_backend_raises | apply backend_never_missing].
Qed.

Lemma backend_guard_witness :
  Irc.on_message (TF := Irc.SampleFactory) "PING :token"
    (Irc.start (Irc.init Irc.sample_settings) (Irc.ticking 0 1))
  = (Raise Irc.backend_error,
     Irc.start (Irc.init Irc.sample_settings) (Irc.ticking 0 1))
  /\ fst (Irc.on_message (TF := Irc.SampleFactory) "PING :token"
            (Irc.start (Irc.with_backend (Irc.init Irc.sample_settings))
               (Irc.ticking 0 1)))
     <> Raise Irc.backend_error.
Proof.
  split.
  - apply (backend_guard (TF := Irc.SampleFactory)
             (Irc.start (Irc.init Irc.sample_settings) (Irc.ticking 0 1))).
    reflexivity.
  - apply (backend_guard (TF := Irc.SampleFactory)
             (Irc.start (Irc.with_backend (Irc.init Irc.sample_settings))
                (Irc.ticking 0 1))).
    discriminate.
Defined.


(** C7.  Every invocation of [on_error] that the process survives adds one
    to the error counter and records the time.  When the counter on entry
    exceeds 10: if less than 5 seconds passed since the previous fatal error
    (or there was none) the process exits at once with status 1; otherwise
    the counter is first lowered by one per full 5 seconds that passed, not
    below zero, and the session continues. *)
Theorem on_error_policy (rt : Irc.Runtime) :
  let count := Irc.error_count (Irc.self rt) in
  let dt := Irc.seconds_since_last_error rt in
  (count <= 10 ->
   exists rt',
     Irc.on_error rt = (Return tt, rt')
     /\ Irc.error_count (Irc.self rt') = count + 1
     /\ Irc.last_error_timestamp (Irc.self rt')
        = Some (readings (Irc.clock rt) (reads (Irc.clock rt))))
  /\ (count > 10 -> (dt < 5)%Q ->
      exists rt', Irc.on_error rt = (Exit 1, rt') /\ Irc.self rt' = Irc.self rt)
  /\ (count > 10 -> ~ (dt < 5)%Q ->
      exists rt',
        Irc.on_error rt = (Return tt, rt')
        /\ Irc.error_count (Irc.self rt') = Z.max 0 (count - Qfloor (dt / 5)) + 1
        /\ Irc.last_error_timestamp (Irc.self rt')
           = Some (readings (Irc.clock rt) (S (reads (Irc.clock rt))))).
Proof.
  intros count dt. subst count dt. repeat split.
  - intros Hle. destruct (on_error_few rt Hle) as (rt' & Hrun & Hc & Ht & _).
    exists rt'. auto.
  - intros Hgt Hdt. destruct (on_error_storm rt Hgt Hdt) as (rt' & Hrun & Hs & _).
    exists rt'. auto.
  - intros Hgt Hdt. exact (on_error_decay rt Hgt Hdt).
Qed.

Lemma on_error_policy_witness :
  exists rt',
    Irc.on_error
      (Irc.start
         (Irc.set_error_count 12
            (Irc.set_last_error_timestamp (Some 0%Q)
               (Irc.init Irc.sample_settings)))
         (Irc.ticking 12 1))
    = (Return tt, rt')
    /\ Irc.error_count (Irc.self rt') = 11.
Proof.
  destruct (on_error_policy
              (Irc.start
                 (Irc.set_error_count 12
                    (Irc.set_last_error_timestamp (Some 0%Q)
                       (Irc.init Irc.sample_settings)))
                 (Irc.ticking 12 1))) as (_ & _ & Hdecay).
  destruct Hdecay as (rt' & Hrun & Hcount & _).
  - reflexivity.
  - vm_compute. discriminate.
  - exists rt'. split; [exact Hrun |]. rewrite Hcount. reflexivity.
Defined.

(** C6.  For every recipient, [safe_text_length] is LINELEN (512 when the
    server did not advertise it) minus 14 framing bytes, minus the length of
    the hostmask (the known hostmask, or else nick + min(user, USERLEN
    defaulting to 9) + 66), minus the UTF-8 byte length of the recipient;
    and the byte length is not the character count. *)
Theorem safe_text_length_budget (b : Irc.Bot) (recipient : string) :
  Irc.safe_text_length b recipient =
    default 512 (Irc.LINELEN (Irc._isupport b))
    - 14
    - match Irc.hostmask b with
      | Some h => Str.len h
      | None => Str.len (Irc.raw (Irc._nick b))
                + Z.min (Str.len (Irc._user b))
                        (default 9 (Irc.USERLEN (Irc._isupport b)))
                + 66
      end
    - Str.encoded_len recipient
  /\ Irc.safe_text_length b (recipient +:+ String "195" (String "169" EmptyString))
     = Irc.safe_text_length b recipient - 2
  /\ Str.len (String "195" (String "169" EmptyString)) = 1.
Proof.
  split; [apply safe_text_length_unfold |].
  split; [| reflexivity].
  rewrite !safe_text_length_unfold, encoded_len_append.
  unfold Str.encoded_len at 2. simpl String.length. lia.
Qed.

(** What the prefix checks of [cap_req] do catch.  A request with the [-]
    prefix raises a capability-conflict error when some request in the list
    now stored under that name is not a forbid, and a request with the [=]
    prefix raises one when some request in that list is a forbid; the state
    is left as it was.  In particular, right after a successful [-name]
    request an [=name] request raises, and right after a successful [=name]
    request a [-name] request raises.  Before registration is complete the
    error is [Exception('Capability conflict')]. *)
Theorem capability_forbid_require_conflict (rt : Irc.Runtime)
    (plugin_name capability : string) (arg : option string)
    (failure_callback success_callback : option nat) :
  let raises_conflict :=
    exists e,
      Irc.cap_req plugin_name capability arg failure_callback success_callback rt
      = (Raise e, rt)
      /\ Irc.capability_conflict e
      /\ (Irc.connection_registered (Irc.self rt) = false ->
          e = Exception Irc.ERR_CAPABILITY_CONFLICT) in
  (Str.first capability = Ok "-" ->
   Exists (fun ent => Irc.prefix ent <> "-")
     (Irc.requests_for (Irc.self rt) (Str.rest capability)) ->
   raises_conflict)
  /\ (Str.first capability = Ok "=" ->
      Exists (fun ent => Irc.prefix ent = "-")
        (Irc.requests_for (Irc.self rt) (Str.rest capability)) ->
      raises_conflict)
  /\ (forall rt0 plugin0 capability0 arg0 failure0 success0,
      Irc.registry_ok (Irc.self rt0) ->
      Irc.cap_req plugin0 capability0 arg0 failure0 success0 rt0 = (Return tt, rt) ->
      Str.rest capability0 = Str.rest capability ->
      (Str.first capability0 = Ok "-" /\ Str.first capability = Ok "=")
      \/ (Str.first capability0 = Ok "=" /\ Str.first capability = Ok "-") ->
      raises_conflict).
Proof.
  intros raises_conflict. subst raises_conflict. split; [| split].
  - apply cap_req_forbid_conflict.
  - apply cap_req_require_conflict.
  - intros rt0 plugin0 capability0 arg0 failure0 success0 Hok Hrun Hrest
      [[Hfirst0 Hfirst] | [Hfirst0 Hfirst]].
    + apply cap_req_require_conflict; [exact Hfirst |].
      rewrite <- Hrest.
      rewrite (cap_req_recorded _ _ _ _ _ _ _ _ Hfirst0 (or_introl eq_refl) Hok Hrun).
      apply Exists_app. right. constructor. reflexivity.
    + apply cap_req_forbid_conflict; [exact Hfirst |].
      rewrite <- Hrest.
      rewrite (cap_req_recorded _ _ _ _ _ _ _ _ Hfirst0 (or_intror eq_refl) Hok Hrun).
      apply Exists_app. right. constructor. discriminate.
Qed.

Lemma capability_forbid_require_conflict_witness :
  (exists e,
     Irc.cap_req "plugin_b" "=cap-a" None None None
       (Irc.after_cap_req "plugin_a" "-cap-a" None)
     = (Raise e, Irc.after_cap_req "plugin_a" "-cap-a" None)
     /\ e = Exception Irc.ERR_CAPABILITY_CONFLICT)
  /\ (exists e,
     Irc.cap_req "plugin_b" "-cap-a" None None None
       (Irc.after_cap_req "plugin_a" "=cap-a" None)
     = (Raise e, Irc.after_cap_req "plugin_a" "=cap-a" None)
     /\ e = Exception Irc.ERR_CAPABILITY_CONFLICT).
Proof.
  split.
  - destruct (capability_forbid_require_conflict
                (Irc.after_cap_req "plugin_a" "-cap-a" None)
                "plugin_b" "=cap-a" None None None) as (_ & _ & Hsecond).
    destruct (Hsecond (Irc.start (Irc.init Irc.sample_settings)
                         (mkClock (fun _ => 0%Q) 0))
                "plugin_a" "-cap-a" None None None) as (e & Hrun & _ & He).
    + apply map_Forall_empty.
    + reflexivity.
    + reflexivity.
    + left. split; reflexivity.
    + exists e. split; [exact Hrun | apply He; reflexivity].
  - destruct (capability_forbid_require_conflict
                (Irc.after_cap_req "plugin_a" "=cap-a" None)
                "plugin_b" "-cap-a" None None None) as (_ & _ & Hsecond).
    destruct (Hsecond (Irc.start (Irc.init Irc.sample_settings)
                         (mkClock (fun _ => 0%Q) 0))
                "plugin_a" "=cap-a" None None None) as (e & Hrun & _ & He).
    + apply map_Forall_empty.
    + reflexivity.
    + reflexivity.
    + right. split; reflexivity.
    + exists e. split; [exact Hrun | apply He; reflexivity].
Defined.

(** C8: the code loses a recorded forbid.  On a fresh bot
    [cap_req('plugin_a', '-cap-a')] records a forbid for ['cap-a'].  The
    unprefixed [cap_req('plugin_b', 'cap-a')] that follows is accepted, and
    because it appends to the list found under ['ap-a'] and stores that list
    under ['cap-a'], the forbid is no longer on record.  The
    [cap_req('plugin_c', '=cap-a')] that comes third then finds no forbid
    and is accepted too, although a request recorded earlier for that name
    forbids the capability: requiring and disabling are not first come,
    first served. *)
Theorem cap_req_forbid_lost_after_unprefixed :
  let forbidden := Irc.after_cap_req "plugin_a" "-cap-a" None in
  let asked := Irc.cap_req "plugin_b" "cap-a" None None None forbidden in
  let required := Irc.cap_req "plugin_c" "=cap-a" None None None (snd asked) in
  Irc.requests_for (Irc.self forbidden) "cap-a"
  = [Irc.mkCapReq "-" "plugin_a" None None None]
  /\ fst asked = Return tt
  /\ Irc.requests_for (Irc.self (snd asked)) "cap-a"
     = [Irc.mkCapReq EmptyString "plugin_b" None None None]
  /\ fst required = Return tt
  /\ Irc.requests_for (Irc.self (snd required)) "cap-a"
     = [Irc.mkCapReq EmptyString "plugin_b" None None None;
        Irc.mkCapReq "=" "plugin_c" None None None].
Proof. repeat split; reflexivity. Qed.

(** C3: the code misses the conflict for requests without a prefix.  On a
    fresh bot, [cap_req('plugin_a', 'cap-a', arg='x')] followed by
    [cap_req('plugin_b', 'cap-a', arg='y')] raises nothing: the recorded
    requests are looked up under [capability[1:]], here ['ap-a'], before the
    prefix is examined, so the first request is not seen, and the second
    call then replaces the list stored under ['cap-a']. *)
Theorem cap_req_unprefixed_misses_arg_conflict :
  let first := Irc.after_cap_req "plugin_a" "cap-a" (Some "x") in
  let second := Irc.cap_req "plugin_b" "cap-a" (Some "y") None None first in
  Irc.requests_for (Irc.self first) "cap-a"
  = [Irc.mkCapReq EmptyString "plugin_a" None (Some "x") None]
  /\ fst second = Return tt
  /\ Irc.requests_for (Irc.self (snd second)) "cap-a"
     = [Irc.mkCapReq EmptyString "plugin_b" None (Some "y") None].
Proof. repeat split; reflexivity. Qed.




(** The run of the sample above: the bucket is empty and stays empty after
    the refill, so the call sleeps 0.7 - 0.5 seconds and then sends. *)
Example flooded_say_sample :
  let rt' :=
    snd (Irc.say "hello" "#chan" 1 EmptyString EmptyString
           (Irc.start (Irc.bot_having_sent 3 ["hi"] 0) (Irc.ticking (1 # 2) 1))) in
  Irc.wire_calls (Irc.trace rt') = [Irc.send_privmsg "#chan" "hello"]
  /\ (Irc.slept (Irc.trace rt') == 1 # 5)%Q.
Proof. split; reflexivity. Qed.




(** C2 (as amended).  With the default parameters (max_messages=1, no
    truncation marker, no trailer) [say] does not split: to a recipient with
    no recorded messages it sends exactly one PRIVMSG whose text is the whole
    input, whatever the computed safe length is, and discards nothing.  In
    the scenario (LINELEN=100, nick [bot], user [b]) all 150 characters are
    handed to the backend although the safe length is 11. *)
Theorem say_default_sends_whole_text (rt : Irc.Runtime) (text recipient : string) :
  let b := Irc.self rt in
  Irc.backend b <> None ->
  Irc.penalty_defined (Irc.settings b) ->
  Irc.stack_messages (Irc.recipient_stack_of b recipient) = [] ->
  exists rt' pre,
    Irc.say text recipient 1 EmptyString EmptyString rt = (Return tt, rt')
    /\ Irc.trace rt'
       = Irc.trace rt ++ pre ++ [Irc.Wire (Irc.send_privmsg recipient text)]
    /\ Irc.wire_calls pre = []
    /\ Irc.wire_calls (Irc.trace rt')
       = Irc.wire_calls (Irc.trace rt) ++ [Irc.send_privmsg recipient text].
Proof.
  intros b Hbe Hdef Hfresh.
  destruct (say_sending_run text recipient rt
              (Irc.spec_penalty (Irc.settings b) text)
              (fun _ => flood_penalty_spec _ text Hdef)) as [rt1 Hrun].
  fold b in Hrun. rewrite Hfresh, loop_detection_nothing_sent in Hrun.
  destruct Hrun as (Hrun & Htrace & _).
  pose proof (flood_events_quiet (Irc.settings b) (Irc.elapsed_of rt recipient)
                (Irc.bucket_of rt recipient)
                (Irc.spec_penalty (Irc.settings b) text)) as [Hquiet _].
  exists rt1, (Irc.flood_events (Irc.settings b) (Irc.elapsed_of rt recipient)
                 (Irc.bucket_of rt recipient)
                 (Irc.spec_penalty (Irc.settings b) text)).
  split.
  { rewrite say_single by (assumption || lia).
    fold b. rewrite say_split_default. cbn [fst]. now rewrite Hrun. }
  split; [exact Htrace |]. split; [exact Hquiet |].
  rewrite Htrace. unfold Irc.wire_calls in *.
  rewrite !omap_app, Hquiet. reflexivity.
Qed.

Lemma say_default_sends_whole_text_witness :
  exists rt',
    Irc.say Irc.x150 "#chan" 1 EmptyString EmptyString
      (Irc.start Irc.scenario_bot (Irc.ticking 0 1))
    = (Return tt, rt')
    /\ Irc.wire_calls (Irc.trace rt') = [Irc.send_privmsg "#chan" Irc.x150].
Proof.
  destruct (say_default_sends_whole_text
              (Irc.start Irc.scenario_bot (Irc.ticking 0 1)) Irc.x150 "#chan")
    as (rt' & pre & Hsay & _ & _ & Hwire).
  - discriminate.
  - intros _ Hzero. vm_compute in Hzero. discriminate Hzero.
  - reflexivity.
  - exists rt'. split; [exact Hsay | exact Hwire].
Defined.

(** C2: the statement as written fails.  In the scenario the safe length is 11,
    a hard cut there would leave eleven characters, and [say] sends all 150:
    with the default parameters the splitting code is not reached. *)
Lemma say_default_does_not_cut :
  let rt := Irc.start Irc.scenario_bot (Irc.ticking 0 1) in
  Irc.safe_text_length (Irc.self rt) "#chan" = 11
  /\ fst (Irc.get_sendable_message Irc.x150 11) = Str.repeat "x"%char 11
  /\ Irc.wire_calls
       (Irc.trace
          (snd (Irc.say Irc.x150 "#chan" 1 EmptyString EmptyString rt)))
     = [Irc.send_privmsg "#chan" Irc.x150]
  /\ Irc.x150 <> Str.repeat "x"%char 11.
Proof. repeat split; try reflexivity. discriminate. Qed.

(** C1: the code does not hold batch members back.  An event tagged with the
    reference of an open batch is dispatched at the moment it is ingested,
    and the batch, its message list included, stays as it was (the source
    says [pass  # todo: add message to batch]).  A closing marker releases
    nothing: it leaves the open batches as they were, dispatches at most the
    marker itself, and, unless a batch is open under the reference ["-"],
    raises [KeyError] out of [on_message], because the lookup uses the action
    character as its key. *)
Theorem on_message_batch_not_buffered `{TF : Irc.TriggerFactory}
    (rt : Irc.Runtime) (message : string) :
  let p := Irc.pretrigger_of (Irc.self rt) message in
  let after := Irc.on_message message rt in
  Irc.backend (Irc.self rt) <> None ->
  (forall r,
      Irc.event p <> "BATCH" -> Irc.event p <> "PING" -> Irc.event p <> "ERROR" ->
      Irc.tags p !! "batch" = Some (Some r) ->
      is_Some (Irc.batches (Irc.self rt) !! r) ->
      fst after = Return tt
      /\ Irc.trace (snd after) = Irc.trace rt ++ [Irc.Dispatch p]
      /\ Irc.batches (Irc.self (snd after)) = Irc.batches (Irc.self rt))
  /\ (forall marker,
      Irc.event p = "BATCH" ->
      Irc.args p !! 1%nat = Some marker ->
      Str.first marker = Ok "-" ->
      Irc.batches (Irc.self (snd after)) = Irc.batches (Irc.self rt)
      /\ (Irc.dispatched (Irc.trace (snd after)) = Irc.dispatched (Irc.trace rt)
          \/ Irc.dispatched (Irc.trace (snd after))
             = Irc.dispatched (Irc.trace rt) ++ [p])
      /\ (Irc.batches (Irc.self rt) !! "-" = None ->
          fst after = Raise (KeyError "-")
          /\ Irc.trace (snd after) = Irc.trace rt)).
Proof.
  intros p after Hbe. split.
  - intros r Hbatch Hping Herror Htag Hopen.
    destruct (on_message_member message r rt Hbe Hbatch Hping Herror Htag Hopen)
      as (rt' & Hrun & Htrace & Hkeep).
    subst after. rewrite Hrun. auto.
  - intros marker Hbatch Hargs Hfirst.
    exact (on_message_close message rt marker Hbe Hbatch Hargs Hfirst).
Qed.

Lemma on_message_batch_not_buffered_witness :
  let rt := Irc.start Irc.bot_with_open_batch (Irc.ticking 0 1) in
  let message := "@batch=ref1 :nick!u@h PRIVMSG #chan :hello" in
  let after := Irc.on_message (TF := Irc.SampleFactory) message rt in
  fst after = Return tt
  /\ Irc.trace (snd after)
     = [Irc.Dispatch (Irc.pretrigger_of (TF := Irc.SampleFactory)
                        (Irc.self rt) message)]
  /\ Irc.batches (Irc.self (snd after))
     = {[ "ref1" := Irc.mkBatch "ref1" Irc.CHATHISTORY None [] ]}.
Proof.
  intros rt message after.
  destruct (on_message_batch_not_buffered (TF := Irc.SampleFactory) rt message)
    as [Hmember _]; [discriminate |].
  apply (Hmember "ref1"); try discriminate; try reflexivity.
  eexists. reflexivity.
Defined.

(** * Further properties of the code *)

(** ** [sopel/tools/calculation.py] *)

Section MoreCalculationFacts.
Import Calculation.
Context `{RT : PythonRuntime}.

Lemma eval_node_at_xor_as_pow (frames : nat) (n : node) (timeout : Q)
    (c : Clock) :
  _eval_node_at frames EquationEvaluator (xor_as_pow n) timeout c
  = _eval_node_at frames EquationEvaluator n timeout c.
Proof.
  revert n c. induction frames as [| frames IH]; intros n c; [reflexivity |].
  destruct n as [k | l op r | op e | | | | |]; try reflexivity.
  - assert (Hop : binary_ops EquationEvaluator
                    (match op with BitXor => Pow | _ => op end)
                  = binary_ops EquationEvaluator op)
      by (destruct op; reflexivity).
    assert (Hname : binary_ops EquationEvaluator op = None ->
                    match op with BitXor => Pow | _ => op end = op)
      by (destruct op; simpl; congruence).
    cbn [xor_as_pow _eval_node_at]. rewrite Hop.
    destruct (binary_ops EquationEvaluator op) as [f |] eqn:Hf.
    + unfold bind. rewrite IH.
      destruct (_eval_node_at frames EquationEvaluator l timeout c)
        as [[vl | el | xl] c1]; try reflexivity.
      rewrite IH. reflexivity.
    + now rewrite Hname.
  - cbn [xor_as_pow _eval_node_at].
    destruct (unary_ops EquationEvaluator op) as [f |]; [| reflexivity].
    unfold bind. rewrite IH. reflexivity.
Qed.

(** [EquationEvaluator] maps [^] to the function it maps [**] to: an
    expression evaluates, at any depth and with the same readings of the
    clock, exactly as the one in which every [^] is written [**]. *)
Theorem eval_node_xor_as_pow (n : node) (timeout : Q) (c : Clock) :
  _eval_node EquationEvaluator (xor_as_pow n) timeout c
  = _eval_node EquationEvaluator n timeout c.
Proof. apply eval_node_at_xor_as_pow. Qed.



(** A longer timeout does not change a result. *)
Lemma eval_node_at_timeout_monotone (frames : nat)
    (evaluator : ExpressionEvaluator) (n : node) (timeout timeout' : Q)
    (c c' : Clock) (v : value) :
  (timeout <= timeout')%Q ->
  _eval_node_at frames evaluator n timeout c = (Return v, c') ->
  _eval_node_at frames evaluator n timeout' c = (Return v, c').
Proof.
  intros Hle. revert n c c' v.
  induction frames as [| frames IH]; intros n c c' v; [exact (fun H => H) |].
  destruct n as [k | l op r | op e | | | | |]; try exact (fun H => H).
  - cbn [_eval_node_at].
    destruct (binary_ops evaluator op) as [f |]; [| exact (fun H => H)].
    unfold bind, time_time.
    destruct (_eval_node_at frames evaluator l timeout c)
      as [[vl | el | xl] c1] eqn:Hl; try discriminate.
    rewrite (IH _ _ _ _ Hl).
    destruct (_eval_node_at frames evaluator r timeout c1)
      as [[vr | er | xr] c2] eqn:Hr; try discriminate.
    rewrite (IH _ _ _ _ Hr).
    destruct (Qle_bool (readings c2 (reads c2)) timeout) eqn:Hnow;
      [| discriminate].
    apply Qle_bool_iff in Hnow.
    assert (Hnow' : Qle_bool (readings c2 (reads c2)) timeout' = true)
      by (apply Qle_bool_iff; eapply Qle_trans; eassumption).
    now rewrite Hnow'.
  - cbn [_eval_node_at].
    destruct (unary_ops evaluator op) as [f |]; [| exact (fun H => H)].
    unfold bind, time_time.
    destruct (_eval_node_at frames evaluator e timeout c)
      as [[ve | ee | xe] c1] eqn:He; try discriminate.
    rewrite (IH _ _ _ _ He).
    destruct (Qle_bool (readings c1 (reads c1)) timeout) eqn:Hnow;
      [| discriminate].
    apply Qle_bool_iff in Hnow.
    assert (Hnow' : Qle_bool (readings c1 (reads c1)) timeout' = true)
      by (apply Qle_bool_iff; eapply Qle_trans; eassumption).
    now rewrite Hnow'.
Qed.

(** A longer timeout does not change a result: what [_eval_node] returns
    before a deadline it returns, with the same readings of the clock,
    before every later deadline, whatever the operator tables. *)
Theorem eval_node_timeout_monotone (evaluator : ExpressionEvaluator) (n : node)
    (timeout timeout' : Q) (c c' : Clock) (v : value) :
  (timeout <= timeout')%Q ->
  _eval_node evaluator n timeout c = (Return v, c') ->
  _eval_node evaluator n timeout' c = (Return v, c').
Proof. apply eval_node_at_timeout_monotone. Qed.

Lemma bit_length_mul (a b : Z) :
  bit_length (a * b) <= bit_length a + bit_length b.
Proof.
  unfold bit_length.
  pose proof (Z.log2_nonneg (Z.abs a)) as Hla.
  pose proof (Z.log2_nonneg (Z.abs b)) as Hlb.
  destruct (Z.eqb_spec (a * b) 0) as [H0 | Hab];
    [destruct (a =? 0), (b =? 0); lia |].
  destruct (Z.eqb_spec a 0) as [-> | Ha]; [lia |].
  destruct (Z.eqb_spec b 0) as [-> | Hb]; [lia |].
  rewrite Z.abs_mul.
  pose proof (Z.log2_mul_above (Z.abs a) (Z.abs b) (Z.abs_nonneg a)
                (Z.abs_nonneg b)).
  lia.
Qed.

(** The guard of [guarded_mul] bounds what it lets through.  On two ints
    it either returns their product, and then an operand is 0 or 1 or the
    product has at most 664386 bits; or it raises ValueError, and then no
    operand is 0 or 1 and the operands have more than 664386 bits
    together. *)
Theorem guarded_mul_bounds_product (a b : Z) :
  (guarded_mul (VInt a) (VInt b) = Ok (VInt (a * b))
   /\ (a = 0 \/ a = 1 \/ b = 0 \/ b = 1 \/ bit_length (a * b) <= 664386))
  \/ ((exists msg, guarded_mul (VInt a) (VInt b) = Err (ValueError msg))
      /\ a <> 0 /\ a <> 1 /\ b <> 0 /\ b <> 1
      /\ 664386 < bit_length a + bit_length b).
Proof.
  unfold guarded_mul, in_0_1. cbn [as_int].
  destruct (Z.eqb_spec a 0); [left; rewrite mul_int; auto |].
  destruct (Z.eqb_spec a 1); [left; rewrite mul_int; auto |].
  destruct (Z.eqb_spec b 0); [left; rewrite mul_int; auto 6 |].
  destruct (Z.eqb_spec b 1); [left; rewrite mul_int; auto 6 |].
  cbn [orb].
  destruct (Z.gtb_spec (bit_length a + bit_length b) 664386).
  - right. split; [eexists; reflexivity |]. repeat split; auto.
  - left. rewrite mul_int. split; [reflexivity |].
    pose proof (bit_length_mul a b). lia.
Qed.

(** An [ExpressionEvaluator] made without operator tables evaluates the
    numeric constants and nothing else: every other expression ends in
    [ExpressionEvaluator.Error], and the clock is never read. *)
Theorem bare_evaluator_constants_only (n : node) (timeout : Q) (c : Clock) :
  let bare := {| binary_ops := fun _ => None; unary_ops := fun _ => None |} in
  snd (_eval_node bare n timeout c) = c
  /\ match numeric_constant n with
     | Some v => fst (_eval_node bare n timeout c) = Return v
     | None => is_raise_of_evaluator (fst (_eval_node bare n timeout c))
     end.
Proof.
  cbv zeta. unfold _eval_node.
  pose proof recursion_limit_pos as Hpos.
  destruct recursion_limit as [| frames]; [lia |].
  destruct n as [k | l op r | op e | | | | |]; cbn;
    try (split; [reflexivity | eexists; reflexivity]).
  destruct k; cbn; split; try reflexivity; eexists; reflexivity.
Qed.

End MoreCalculationFacts.



Lemma eval_node_timeout_monotone_witness :
  let n :=
    Calculation.BinOp (Calculation.Constant (Calculation.CInt 2))
      Calculation.Add
      (Calculation.BinOp (Calculation.Constant (Calculation.CInt 3))
         Calculation.Mult (Calculation.Constant (Calculation.CInt 4))) in
  fst (Calculation._eval_node (RT := Calculation.IntegerRuntime)
         (Calculation.EquationEvaluator (RT := Calculation.IntegerRuntime))
         n 5 Calculation.still_clock)
  = Return (Calculation.VInt 14).
Proof.
  cbv zeta.
  erewrite (eval_node_timeout_monotone (RT := Calculation.IntegerRuntime)
              (Calculation.EquationEvaluator (RT := Calculation.IntegerRuntime))
              _ 0 5 Calculation.still_clock).
  - reflexivity.
  - discriminate.
  - vm_compute. reflexivity.
Defined.

(** ** [sopel/irc/__init__.py] and [sopel/tools/_batch.py] *)

Section MoreIrcFacts.
Import Irc.
Context `{TF : TriggerFactory}.

Ltac run :=
  cbv [bind ret raise lift get_self update_self emit LOGGER now time_time
       os_exit require_backend];
  cbn [fst snd self clock trace readings reads].

Ltac proj :=
  cbv beta iota;
  cbn [fst snd self clock trace stack backend settings set_stack readings reads
       stack_messages flood_left from_option id
       _user _name _isupport _nick hostmask connection_registered
       enabled_capabilities _cap_reqs cap_lists last_error_timestamp
       error_count hasquit wantsrestart last_raw_line batches].

Ltac case_innermost :=
  match goal with
  | |- context [match ?x with _ => _ end] =>
      lazymatch x with
      | context [match _ with _ => _ end] => fail
      | _ => destruct x eqn:?; cbn
      end
  end.

Ltac case_quietly :=
  match goal with
  | |- context [match ?x with _ => _ end] =>
      lazymatch x with
      | context [match _ with _ => _ end] => fail
      | _ => destruct x eqn:?; proj
      end
  end.

(** *** What one run of the sending block changes *)

Lemma flood_penalty_error (s : Settings) (text : string) (e : exception) :
  flood_penalty s text = Err e -> e = ZeroDivisionError.
Proof.
  unfold flood_penalty. destruct (Qlt_bool _ _); [| discriminate].
  destruct (Qeq_bool _ _); congruence.
Qed.

Ltac effect_rest :=
  split; [reflexivity |];
  split; [first [left; reflexivity | right; eexists; reflexivity] |];
  split; [rewrite <- ?app_assoc;
          first [reflexivity | symmetry; apply app_nil_r] |];
  split; [reflexivity |]; split; [reflexivity |];
  split; [cbn; lia |];
  first [ left; split; reflexivity
        | right; left; split; reflexivity
        | right; right; split; [| reflexivity];
          do 2 f_equal; eapply flood_penalty_error; eassumption ].

Ltac effect_leaf sent := eexists _, sent, _; effect_rest.
Ltac effect_leaf_one := eexists _, [_], _; effect_rest.

Lemma say_sending_effect text recipient rt :
  let key := recipient_key (self rt) recipient in
  let rs := recipient_stack_of (self rt) recipient in
  let rt' := snd (say_sending text recipient rt) in
  exists rs' sent post,
    self rt' = set_stack (<[key := rs']> (stack (self rt))) (self rt)
    /\ (stack_messages rs' = stack_messages rs
        \/ exists x, stack_messages rs' = deque_append (stack_messages rs) x)
    /\ trace rt' = trace rt ++ post
    /\ wire_calls post = map (send_privmsg recipient) sent
    /\ dispatched post = []
    /\ (length sent <= 1)%nat
    /\ (fst (say_sending text recipient rt) = Return true
        /\ length sent = 1%nat
        \/ fst (say_sending text recipient rt) = Return false /\ sent = []
        \/ fst (say_sending text recipient rt) = Raise ZeroDivisionError
           /\ sent = []).
Proof.
  intros key rs rt'. subst key rs rt'. destruct rt as [b c tr]. cbn [self].
  set (key := recipient_key b recipient).
  assert (Hrs : (stack b !! key = None)
                \/ stack b !! key = Some (recipient_stack_of b recipient)).
  { unfold recipient_stack_of. fold key.
    destruct (stack b !! key); [right | left]; reflexivity. }
  unfold say_sending, set_recipient_stack. run.
  fold key. set (rs := recipient_stack_of b recipient) in *.
  clearbody rs key.
  destruct b. proj. cbn [stack] in Hrs.
  destruct Hrs as [Hrs | Hrs]; rewrite Hrs; proj; repeat case_quietly;
    unfold set_stack; proj; rewrite ?insert_insert_eq;
    first [ effect_leaf (@nil string) | effect_leaf_one
          | exists rs, (@nil string); eexists;
            rewrite (insert_id _ _ _ Hrs); effect_rest
          | exists rs; eexists [_], _;
            rewrite (insert_id _ _ _ Hrs); effect_rest ].
Qed.

(** *** What [say] changes *)

Lemma set_stack_same (b : Bot) : set_stack (stack b) b = b.
Proof. now destruct b. Qed.

Lemma recipient_key_set_stack st (b : Bot) recipient :
  recipient_key (set_stack st b) recipient = recipient_key b recipient.
Proof. reflexivity. Qed.

Lemma deque_append_length {A} (d : list A) (x : A) :
  (length d <= 10 -> length (deque_append d x) <= 10)%nat.
Proof.
  intros Hd. unfold deque_append.
  destruct (Nat.ltb_spec 10 (length (d ++ [x]))) as [Hlt | Hle]; [| exact Hle].
  rewrite length_drop, length_app. cbn. lia.
Qed.

Lemma recipient_stack_bounded (b : Bot) recipient :
  stack_bounded b ->
  (length (stack_messages (recipient_stack_of b recipient)) <= 10)%nat.
Proof.
  intros Hb. unfold recipient_stack_of.
  destruct (stack b !! recipient_key b recipient) as [rs |] eqn:Hrs; cbn.
  - exact (Hb _ _ Hrs).
  - lia.
Qed.

Lemma wire_calls_app (tr1 tr2 : list Event) :
  wire_calls (tr1 ++ tr2) = wire_calls tr1 ++ wire_calls tr2.
Proof. apply omap_app. Qed.

Lemma dispatched_app (tr1 tr2 : list Event) :
  dispatched (tr1 ++ tr2) = dispatched tr1 ++ dispatched tr2.
Proof. apply omap_app. Qed.

Lemma say_rec_effect fuel text recipient max_messages truncation trailing rt :
  let key := recipient_key (self rt) recipient in
  let rt' :=
    snd (say_rec fuel text recipient max_messages truncation trailing rt) in
  exists st sent post,
    self rt' = set_stack st (self rt)
    /\ (forall k, k <> key -> st !! k = stack (self rt) !! k)
    /\ (stack_bounded (self rt) ->
        map_Forall (fun _ rs => (length (stack_messages rs) <= 10)%nat) st)
    /\ trace rt' = trace rt ++ post
    /\ wire_calls post = map (send_privmsg recipient) sent
    /\ dispatched post = []
    /\ (length sent <= Z.to_nat (Z.max 1 max_messages))%nat.
Proof.
  cbv zeta. revert text max_messages rt.
  assert (Hstay : forall rt : Runtime, forall n : Z,
    exists st sent post,
      self rt = set_stack st (self rt)
      /\ (forall k, k <> recipient_key (self rt) recipient ->
            st !! k = stack (self rt) !! k)
      /\ (stack_bounded (self rt) ->
          map_Forall (fun _ rs => (length (stack_messages rs) <= 10)%nat) st)
      /\ trace rt = trace rt ++ post
      /\ wire_calls post = map (send_privmsg recipient) sent
      /\ dispatched post = []
      /\ (length sent <= Z.to_nat (Z.max 1 n))%nat).
  { intros rt n. exists (stack (self rt)), [], [].
    rewrite set_stack_same, app_nil_r. repeat split; auto. cbn. lia. }
  assert (Hone : forall (rt rt1 : Runtime) rs',
    self rt1
    = set_stack (<[recipient_key (self rt) recipient := rs']> (stack (self rt)))
        (self rt) ->
    (stack_messages rs'
     = stack_messages (recipient_stack_of (self rt) recipient)
     \/ exists x,
         stack_messages rs'
         = deque_append
             (stack_messages (recipient_stack_of (self rt) recipient)) x) ->
    (forall k, k <> recipient_key (self rt) recipient ->
       stack (self rt1) !! k = stack (self rt) !! k)
    /\ (stack_bounded (self rt) -> stack_bounded (self rt1))).
  { intros rt rt1 rs' Hself Hmsgs. rewrite Hself. split.
    - intros k Hk. cbn [stack set_stack]. now apply lookup_insert_ne.
    - intros Hb. unfold stack_bounded. cbn [stack set_stack].
      apply map_Forall_insert_2; [| exact Hb].
      pose proof (recipient_stack_bounded _ recipient Hb) as Hlen.
      destruct Hmsgs as [-> | [x ->]]; [exact Hlen |].
      now apply deque_append_length. }
  induction fuel as [| fuel IH]; intros text max_messages rt;
    (destruct (backend (self rt)) as [be |] eqn:Hb;
     [| rewrite say_rec_no_backend by assumption; apply Hstay]);
    rewrite (say_rec_step _ _ _ _ _ _ _ be Hb);
    destruct (say_split _ _ _ _ _ _) as [text1 excess];
    destruct (say_sending_effect text1 recipient rt)
      as (rs' & sent1 & post1 & Hself & Hmsgs & Htrace & Hwire & Hdisp
          & Hlen & _);
    cbv zeta in *;
    destruct (Hone rt _ _ Hself Hmsgs) as [Hframe Hbound];
    assert (Hfirst :
      exists st sent post,
        self (snd (say_sending text1 recipient rt)) = set_stack st (self rt)
        /\ (forall k, k <> recipient_key (self rt) recipient ->
              st !! k = stack (self rt) !! k)
        /\ (stack_bounded (self rt) ->
            map_Forall (fun _ rs => (length (stack_messages rs) <= 10)%nat) st)
        /\ trace (snd (say_sending text1 recipient rt)) = trace rt ++ post
        /\ wire_calls post = map (send_privmsg recipient) sent
        /\ dispatched post = []
        /\ (length sent <= Z.to_nat (Z.max 1 max_messages))%nat)
      by (exists (stack (self (snd (say_sending text1 recipient rt)))),
            sent1, post1;
          rewrite Hself at 1; cbn [stack set_stack];
          (split; [rewrite Hself; reflexivity |]);
          repeat split; auto; lia);
    destruct (say_sending text1 recipient rt) as [[sent | e | c] rt1];
    cbn [fst snd] in *; try exact Hfirst;
    (destruct (sent && (max_messages >? 1) && nonempty excess) eqn:Hmore;
     [| exact Hfirst]);
    try exact Hfirst.
  apply Bool.andb_true_iff in Hmore as [Hmore _].
  apply Bool.andb_true_iff in Hmore as [_ Hmany]. apply Z.gtb_lt in Hmany.
  destruct (IH excess (max_messages - 1) rt1)
    as (st2 & sent2 & post2 & Hself2 & Hframe2 & Hbound2 & Htrace2 & Hwire2
        & Hdisp2 & Hlen2).
  exists st2, (sent1 ++ sent2), (post1 ++ post2).
  rewrite Hself in Hframe2. rewrite recipient_key_set_stack in Hframe2.
  rewrite <- Hself in Hframe2.
  split; [rewrite Hself2, Hself; reflexivity |].
  split; [intros k Hk; rewrite Hframe2 by exact Hk; now apply Hframe |].
  split; [intros Hsb; apply Hbound2, Hbound, Hsb |].
  split; [rewrite Htrace2, Htrace; now rewrite app_assoc |].
  split; [rewrite wire_calls_app, map_app; congruence |].
  split; [rewrite dispatched_app, Hdisp, Hdisp2; reflexivity |].
  rewrite length_app. lia.
Qed.

(** [say] puts nothing on the wire but PRIVMSGs to its recipient, at most
    max(1, max_messages) of them, and hands nothing to [dispatch], whatever
    the state of the bot and however the call ends. *)
Theorem say_sends_only_privmsg (text recipient truncation trailing : string)
    (max_messages : Z) (rt : Runtime) :
  exists sent post,
    trace (snd (say text recipient max_messages truncation trailing rt))
    = trace rt ++ post
    /\ wire_calls post = map (send_privmsg recipient) sent
    /\ dispatched post = []
    /\ (length sent <= Z.to_nat (Z.max 1 max_messages))%nat.
Proof.
  destruct (say_rec_effect (Z.to_nat max_messages) text recipient max_messages
              truncation trailing rt)
    as (st & sent & post & _ & _ & _ & Htrace & Hwire & Hdisp & Hlen).
  exists sent, post. auto.
Qed.

(** Of the state of the bot [say] changes the flood-control stack only, and
    of the stack the entry of its recipient only: every other attribute and
    every other recipient's history and bucket are as before. *)
Theorem say_touches_one_entry (text recipient truncation trailing : string)
    (max_messages : Z) (rt : Runtime) :
  let rt' := snd (say text recipient max_messages truncation trailing rt) in
  self rt' = set_stack (stack (self rt')) (self rt)
  /\ forall k, k <> recipient_key (self rt) recipient ->
       stack (self rt') !! k = stack (self rt) !! k.
Proof.
  destruct (say_rec_effect (Z.to_nat max_messages) text recipient max_messages
              truncation trailing rt)
    as (st & sent & post & Hself & Hframe & _).
  cbv zeta in *.
  fold (say text recipient max_messages truncation trailing) in Hself.
  rewrite Hself. cbn [stack set_stack]. split; [reflexivity | exact Hframe].
Qed.

(** The history kept for a recipient is a deque of at most ten messages:
    when no history in the stack is longer than ten before [say], none is
    after it. *)
Theorem say_keeps_history_bounded (text recipient truncation trailing : string)
    (max_messages : Z) (rt : Runtime) :
  stack_bounded (self rt) ->
  stack_bounded
    (self (snd (say text recipient max_messages truncation trailing rt))).
Proof.
  intros Hb.
  destruct (say_rec_effect (Z.to_nat max_messages) text recipient max_messages
              truncation trailing rt)
    as (st & sent & post & Hself & _ & Hbound & _).
  cbv zeta in *.
  fold (say text recipient max_messages truncation trailing) in Hself.
  unfold stack_bounded. rewrite Hself. cbn [stack set_stack]. now apply Hbound.
Qed.

(** *** How [say] can end *)

Lemma say_sending_raises text recipient rt e :
  bucket_of rt recipient = 0 ->
  flood_penalty (settings (self rt)) text = Err e ->
  exists rt',
    say_sending text recipient rt = (Raise e, rt')
    /\ trace rt' = trace rt.
Proof.
  intros Hbucket Hpen.
  unfold say_sending, set_recipient_stack, bucket_of in *.
  unfold elapsed_of in *.
  run.
  set (key := recipient_key (self rt) recipient) in *.
  set (rs := recipient_stack_of (self rt) recipient) in *.
  clearbody rs.
  destruct (stack (self rt) !! key); proj;
    (destruct (last (stack_messages rs)) as [[t m] |]; proj);
    (destruct (flood_left rs =? 0) eqn:Hfl; proj;
     [| apply Z.eqb_neq in Hfl; contradiction]);
    rewrite Hbucket; proj; rewrite Hpen; proj;
    eexists; split; reflexivity.
Qed.

(** Where a ZeroDivisionError of [say] comes from: when the call ends in
    one, there is a backend, [flood_penalty_ratio] is positive and
    [flood_text_length] is zero, the one configuration in which the penalty
    divides by zero. *)
Theorem say_zero_division_needs_zero_length
    (text recipient truncation trailing : string) (max_messages : Z)
    (rt : Runtime) :
  let s := settings (self rt) in
  fst (say text recipient max_messages truncation trailing rt)
  = Raise ZeroDivisionError ->
  backend (self rt) <> None
  /\ (0 < flood_penalty_ratio s)%Q
  /\ flood_text_length s = 0.
Proof.
  intros s Hraise.
  assert (Hbe : backend (self rt) <> None).
  { intros Hnone. unfold say in Hraise.
    rewrite say_rec_no_backend in Hraise by exact Hnone. discriminate. }
  split; [exact Hbe |].
  assert (Hundefined : ~ penalty_defined s).
  { intros Hdef.
    pose proof (say_rec_returns (Z.to_nat max_messages) text recipient
                  max_messages truncation trailing rt (le_n _) Hdef Hbe) as Hret.
    fold (say text recipient max_messages truncation trailing) in Hret.
    rewrite Hret in Hraise. discriminate. }
  destruct (Qlt_bool 0 (flood_penalty_ratio s)) eqn:Hratio.
  - apply Qlt_bool_iff in Hratio. split; [exact Hratio |].
    destruct (Z.eq_dec (flood_text_length s) 0) as [Hzero | Hlength];
      [exact Hzero |].
    exfalso. apply Hundefined. intros _ Hproduct.
    apply Qmult_integral in Hproduct as [Hl | Hr].
    + apply Hlength. unfold Qeq in Hl. simpl in Hl. lia.
    + rewrite Hr in Hratio. discriminate Hratio.
  - exfalso. apply Hundefined. intros Hpositive.
    apply Qlt_bool_iff in Hpositive. congruence.
Qed.

(** The division by zero in the flood penalty: with a positive
    [flood_penalty_ratio] and a [flood_text_length] of zero, a call that
    finds the bucket of its recipient empty after the refill raises
    ZeroDivisionError before it sleeps or sends; nothing is added to the
    trace. *)
Theorem say_zero_division (text recipient truncation trailing : string)
    (max_messages : Z) (rt : Runtime) :
  let s := settings (self rt) in
  backend (self rt) <> None ->
  bucket_of rt recipient = 0 ->
  (0 < flood_penalty_ratio s)%Q ->
  flood_text_length s = 0 ->
  exists rt',
    say text recipient max_messages truncation trailing rt
    = (Raise ZeroDivisionError, rt')
    /\ trace rt' = trace rt.
Proof.
  intros s Hbe Hbucket Hratio Hlen. unfold say.
  destruct (backend (self rt)) as [be |] eqn:Hb; [clear Hbe | congruence].
  rewrite (say_rec_step _ _ _ _ _ _ _ be Hb).
  destruct (say_split _ _ _ _ _ _) as [text1 excess].
  destruct (say_sending_raises text1 recipient rt ZeroDivisionError Hbucket)
    as (rt' & Hrun & Htrace).
  { fold s. unfold flood_penalty. apply Qlt_bool_iff in Hratio. rewrite Hratio.
    rewrite Hlen. reflexivity. }
  rewrite Hrun. eauto.
Qed.

(** What [say] does to the text before it sends: with [max_messages] at 1
    the text that goes to the sending block ends in [trailing]; with any
    other value neither [truncation] nor [trailing] is used, and the text
    is cut by [get_sendable_message] at the safe length exactly when
    [max_messages] is above 1 or one of the two is not empty. *)
Theorem say_split_trailing (b : Bot) (text recipient truncation trailing : string)
    (max_messages : Z) :
  (max_messages = 1 ->
   exists body,
     fst (say_split b text recipient max_messages truncation trailing)
     = body +:+ trailing)
  /\ (max_messages <> 1 ->
      say_split b text recipient max_messages truncation trailing
      = if (max_messages >? 1) || nonempty truncation || nonempty trailing
        then get_sendable_message text (safe_text_length b recipient)
        else (text, EmptyString)).
Proof.
  unfold say_split. split.
  - intros ->. cbn [Z.eqb Pos.eqb Z.gtb Z.compare Pos.compare Pos.compare_cont orb andb].
    destruct (nonempty truncation || nonempty trailing); cbn [andb];
      repeat match goal with
             | |- context [let '(_, _) := ?x in _] => destruct x
             | |- context [if ?c then _ else _] => destruct c
             end; cbn [fst]; eauto.
  - intros Hne. apply Z.eqb_neq in Hne. rewrite Hne. cbn [andb].
    destruct (_ || _); [| reflexivity].
    now destruct (get_sendable_message _ _).
Qed.

(** *** The capability registry *)

Lemma first_outcome (s : string) :
  (exists p, Str.first s = Ok p)
  \/ (Str.first s = Err IndexError /\ s = EmptyString).
Proof. destruct s; cbn; eauto. Qed.

Lemma existsb_false_Forall {A} (f : A -> bool) (l : list A) :
  existsb f l = false -> Forall (fun x => f x = false) l.
Proof.
  induction l as [| x l IH]; cbn; [constructor |].
  intros H. apply Bool.orb_false_iff in H as [Hx Hl]. constructor; auto.
Qed.

Lemma Forall_existsb_false {A} (f : A -> bool) (l : list A) :
  Forall (fun x => f x = false) l -> existsb f l = false.
Proof.
  induction 1 as [| x l Hx _ IH]; cbn; [reflexivity |]. now rewrite Hx, IH.
Qed.

Lemma same_arg_existsb (arg : option string) (l : list CapReq) :
  Forall (fun ent => Irc.arg ent = arg) l ->
  existsb (fun ent => negb (bool_decide (Irc.arg ent = arg))) l = false.
Proof.
  intros Hsame. apply Forall_existsb_false.
  eapply Forall_impl; [exact Hsame |]. cbn. intros ent Hent.
  apply Bool.negb_false_iff. now apply bool_decide_eq_true.
Qed.

Lemma store_entry_lists cap loc req (b : Bot) :
  cap_lists (store_entry cap loc req b)
  = match loc with
    | Some l => <[l := default [] (cap_lists b !! l) ++ [req]]> (cap_lists b)
    | None => cap_lists b ++ [[req]]
    end.
Proof. destruct loc; reflexivity. Qed.

Lemma requests_consistent_nil : requests_consistent [].
Proof.
  split.
  - intros x y Hx. apply elem_of_nil in Hx. contradiction.
  - intros (x & y & Hx & _). apply elem_of_nil in Hx. contradiction.
Qed.

Lemma requests_consistent_snoc (l : list CapReq) (req : CapReq) :
  requests_consistent l ->
  Forall (fun ent => arg ent = arg req) l ->
  (prefix req = "-" -> Forall (fun ent => prefix ent = "-") l) ->
  (prefix req = "=" -> Forall (fun ent => prefix ent <> "-") l) ->
  requests_consistent (l ++ [req]).
Proof.
  intros [Hargs Hmix] Harg Hforbid Hrequire.
  rewrite Forall_forall in Harg.
  split.
  - intros x y Hx Hy.
    apply elem_of_app in Hx as [Hx | Hx], Hy as [Hy | Hy];
      rewrite ?list_elem_of_singleton in *; subst; auto.
    + symmetry. auto.
  - intros (x & y & Hx & Hy & Hpx & Hpy).
    apply elem_of_app in Hx as [Hx | Hx], Hy as [Hy | Hy];
      rewrite ?list_elem_of_singleton in *; subst.
    + apply Hmix. eauto 6.
    + specialize (Hrequire Hpy). rewrite Forall_forall in Hrequire.
      exact (Hrequire _ Hx Hpx).
    + specialize (Hforbid Hpx). rewrite Forall_forall in Hforbid.
      specialize (Hforbid _ Hy). congruence.
    + congruence.
Qed.

Lemma store_entry_consistent cap (b : Bot) key (req : CapReq) :
  registry_consistent b ->
  Forall (fun ent => arg ent = arg req) (requests_for b cap) ->
  (prefix req = "-" -> Forall (fun ent => prefix ent = "-") (requests_for b cap)) ->
  (prefix req = "=" -> Forall (fun ent => prefix ent <> "-") (requests_for b cap)) ->
  registry_consistent (store_entry key (_cap_reqs b !! cap) req b).
Proof.
  unfold registry_consistent, requests_for. intros Hb Harg Hforbid Hrequire.
  rewrite store_entry_lists.
  destruct (_cap_reqs b !! cap) as [l |].
  - apply Forall_insert; [exact Hb |].
    apply requests_consistent_snoc; auto.
    destruct (cap_lists b !! l) as [entry |] eqn:Hl; cbn.
    + exact (proj1 (Forall_lookup _ _) Hb _ _ Hl).
    + apply requests_consistent_nil.
  - apply Forall_app. split; [exact Hb |].
    apply Forall_singleton.
    apply (requests_consistent_snoc [] req); auto using requests_consistent_nil.
Qed.

Lemma registry_ok_init (s : Settings) : registry_ok (init s).
Proof. apply map_Forall_empty. Qed.

Lemma store_entry_registry_ok cap key req (b : Bot) :
  registry_ok b -> registry_ok (store_entry key (_cap_reqs b !! cap) req b).
Proof.
  unfold registry_ok, store_entry. intros Hok.
  destruct (_cap_reqs b !! cap) as [l |] eqn:Hl; cbn.
  - rewrite length_insert.
    apply map_Forall_insert_2; [exact (Hok _ _ Hl) | exact Hok].
  - rewrite length_app. cbn. apply map_Forall_insert_2; [lia |].
    intros k l Hk. specialize (Hok k l Hk). cbn in *. lia.
Qed.

Lemma cap_req_keeps_registry_ok plugin_name capability arg failure_callback
    success_callback rt :
  registry_ok (self rt) ->
  registry_ok (self (snd (cap_req plugin_name capability arg failure_callback
                            success_callback rt))).
Proof.
  intros Hok.
  destruct (first_outcome capability) as [[p Hfirst] | [_ ->]]; [| exact Hok].
  rewrite (cap_req_unfold _ _ _ _ _ _ _ Hfirst). cbv zeta.
  repeat match goal with
         | |- context [if ?c then _ else _] => destruct c
         end; cbn [snd self]; auto using store_entry_registry_ok.
Qed.

(** The requests recorded in one list never contradict each other: they
    carry the same argument, and no list holds a forbidding request together
    with a requiring one.  [cap_req] keeps it so, whatever it is called with
    and however it ends. *)
Theorem cap_req_keeps_registry_consistent
    (plugin_name capability : string) (arg : option string)
    (failure_callback success_callback : option nat) (rt : Runtime) :
  registry_consistent (self rt) ->
  registry_consistent
    (self (snd (cap_req plugin_name capability arg failure_callback
                  success_callback rt))).
Proof.
  intros Hb.
  destruct (first_outcome capability) as [[p Hfirst] | [_ ->]];
    [| exact Hb].
  rewrite (cap_req_unfold _ _ _ _ _ _ _ Hfirst). cbv zeta.
  destruct (existsb _ _) eqn:Harg; [exact Hb |].
  apply existsb_false_Forall in Harg.
  assert (Hsame : Forall (fun ent => Irc.arg ent = arg)
                    (requests_for (self rt) (Str.rest capability))).
  { eapply Forall_impl; [exact Harg |]. cbn. intros ent Hent.
    apply Bool.negb_false_iff in Hent. now apply bool_decide_eq_true in Hent. }
  destruct (String.eqb p "-") eqn:Hdash.
  - destruct (_ && _); [exact Hb |].
    destruct (existsb _ _) eqn:Hforbid; [exact Hb |].
    apply existsb_false_Forall in Hforbid.
    cbn [snd self]. apply store_entry_consistent; cbn [Irc.arg Irc.prefix]; auto.
    + intros _. eapply Forall_impl; [exact Hforbid |]. cbn. intros ent Hent.
      apply Bool.negb_false_iff in Hent. now apply String.eqb_eq.
    + apply String.eqb_eq in Hdash. subst p. discriminate.
  - destruct (String.eqb p "=") eqn:Heq.
    + destruct (_ && _); [exact Hb |].
      destruct (existsb _ _) eqn:Hrequire; [exact Hb |].
      apply existsb_false_Forall in Hrequire.
      cbn [snd self]. apply store_entry_consistent; cbn [Irc.arg Irc.prefix]; auto.
      * intros ->. discriminate.
      * intros _. eapply Forall_impl; [exact Hrequire |]. cbn. intros ent Hent.
        now apply String.eqb_neq.
    + destruct (_ && _); [exact Hb |].
      cbn [snd self]. apply store_entry_consistent; cbn [Irc.arg Irc.prefix]; auto;
        discriminate.
Qed.

(** A request that [cap_req] refuses leaves no mark: the call raises
    IndexError for the empty capability name, or one of its two
    [Exception]s, and then the bot is exactly as before.  Accepted or not,
    the call puts nothing on the wire or in the log and reads no clock: the
    request to the server is made later. *)
Theorem cap_req_refusal_is_atomic
    (plugin_name capability : string) (arg : option string)
    (failure_callback success_callback : option nat) (rt : Runtime) :
  let r := cap_req plugin_name capability arg failure_callback
             success_callback rt in
  trace (snd r) = trace rt
  /\ clock (snd r) = clock rt
  /\ (fst r = Return tt
      \/ snd r = rt
         /\ (fst r = Raise IndexError /\ capability = EmptyString
             \/ capability <> EmptyString
                /\ exists e, fst r = Raise e /\ capability_conflict e)).
Proof.
  cbv zeta.
  destruct (first_outcome capability) as [[p Hfirst] | [_ ->]];
    [| repeat split; right; split; [reflexivity | left; split; reflexivity]].
  assert (Hne : capability <> EmptyString) by (intros ->; discriminate).
  rewrite (cap_req_unfold _ _ _ _ _ _ _ Hfirst). cbv zeta.
  unfold capability_conflict.
  repeat match goal with
         | |- context [if ?c then _ else _] => destruct c
         end; cbn [fst snd trace clock];
    repeat split; eauto 8.
Qed.

(** After the connection is registered a request that would change the set
    of enabled capabilities is refused: forbidding one that is enabled, or
    requiring or asking for one that is not, raises the post-registration
    [Exception] and changes nothing, unless the argument check has already
    raised. *)
Theorem cap_req_after_registration
    (plugin_name capability prefix : string) (arg : option string)
    (failure_callback success_callback : option nat) (rt : Runtime) :
  let enabled := enabled_capabilities (self rt) in
  connection_registered (self rt) = true ->
  Str.first capability = Ok prefix ->
  Forall (fun ent => Irc.arg ent = arg)
    (requests_for (self rt) (Str.rest capability)) ->
  (prefix = "-" /\ Str.rest capability ∈ enabled)
  \/ (prefix = "=" /\ Str.rest capability ∉ enabled)
  \/ (prefix <> "-" /\ prefix <> "=" /\ capability ∉ enabled) ->
  cap_req plugin_name capability arg failure_callback success_callback rt
  = (Raise (Exception ERR_CAPABILITY_LATE), rt).
Proof.
  intros enabled Hreg Hfirst Hsame Hchange. subst enabled.
  rewrite (cap_req_unfold _ _ _ _ _ _ _ Hfirst). cbv zeta.
  rewrite same_arg_existsb by exact Hsame.
  rewrite Hreg. cbn [andb].
  destruct Hchange as [[-> Hin] | [[-> Hout] | (Hd & He & Hout)]].
  - cbn [String.eqb Ascii.eqb Bool.eqb]. now rewrite bool_decide_eq_true_2.
  - cbn [String.eqb Ascii.eqb Bool.eqb]. now rewrite bool_decide_eq_true_2.
  - apply String.eqb_neq in Hd, He. rewrite Hd, He.
    now rewrite bool_decide_eq_true_2.
Qed.

(** An unprefixed request is recorded under the whole name, but in the list
    found under the name without its first character: that list, with the
    new request appended, becomes the list of the whole name, whatever was
    recorded for it before; and when the shorter name had a list, the two
    names now share it. *)
Theorem cap_req_unprefixed_shares_list
    (plugin_name capability prefix : string) (arg : option string)
    (failure_callback success_callback : option nat) (rt : Runtime) :
  let b := self rt in
  let cap := Str.rest capability in
  Str.first capability = Ok prefix ->
  prefix <> "-" ->
  prefix <> "=" ->
  registry_ok b ->
  Forall (fun ent => Irc.arg ent = arg) (requests_for b cap) ->
  connection_registered b = false \/ capability ∈ enabled_capabilities b ->
  exists rt',
    cap_req plugin_name capability arg failure_callback success_callback rt
    = (Return tt, rt')
    /\ requests_for (self rt') capability
       = requests_for b cap
         ++ [mkCapReq EmptyString plugin_name failure_callback arg
               success_callback]
    /\ (is_Some (_cap_reqs b !! cap) ->
        requests_for (self rt') cap = requests_for (self rt') capability).
Proof.
  intros b cap Hfirst Hd He Hok Hsame Hearly. subst b cap.
  rewrite (cap_req_unfold _ _ _ _ _ _ _ Hfirst). cbv zeta.
  rewrite same_arg_existsb by exact Hsame.
  apply String.eqb_neq in Hd, He. rewrite Hd, He.
  assert (Hlate : connection_registered (self rt)
                  && bool_decide (capability ∉ enabled_capabilities (self rt))
                  = false).
  { destruct Hearly as [-> | Hin]; [reflexivity |].
    rewrite bool_decide_eq_false_2 by auto. apply Bool.andb_false_r. }
  rewrite Hlate. eexists. split; [reflexivity |]. cbn [self].
  split; [now apply requests_after_store |].
  intros [l Hl]. unfold requests_for, store_entry. rewrite Hl. cbn.
  rewrite lookup_insert_eq.
  destruct (decide (capability = Str.rest capability)) as [<- | Hne].
  - now rewrite lookup_insert_eq.
  - rewrite lookup_insert_ne by exact Hne. now rewrite Hl.
Qed.

(** *** Errors in a row *)

Lemma on_error_few_clock (rt : Runtime) :
  error_count (self rt) <= 10 ->
  exists rt',
    on_error rt = (Return tt, rt')
    /\ error_count (self rt') = error_count (self rt) + 1
    /\ last_error_timestamp (self rt')
       = Some (readings (clock rt) (reads (clock rt)))
    /\ readings (clock rt') = readings (clock rt)
    /\ reads (clock rt') = S (reads (clock rt))
    /\ wire_calls (trace rt') = wire_calls (trace rt).
Proof.
  intros Hle. unfold on_error. run.
  destruct (Z.gtb_spec (error_count (self rt)) 10) as [Hgt | _]; [lia |].
  eexists. split; [reflexivity |]. cbn.
  repeat split.
  unfold wire_calls. rewrite <- !app_assoc, omap_app. cbn.
  apply app_nil_r.
Qed.

Lemma on_error_times_few (n : nat) (rt : Runtime) :
  error_count (self rt) + Z.of_nat n <= 11 ->
  exists rt',
    on_error_times n rt = (Return tt, rt')
    /\ error_count (self rt') = error_count (self rt) + Z.of_nat n
    /\ readings (clock rt') = readings (clock rt)
    /\ reads (clock rt') = (reads (clock rt) + n)%nat
    /\ ((0 < n)%nat ->
        last_error_timestamp (self rt')
        = Some (readings (clock rt) (reads (clock rt) + n - 1)%nat))
    /\ wire_calls (trace rt') = wire_calls (trace rt).
Proof.
  revert rt. induction n as [| n IH]; intros rt Hle.
  - exists rt. cbn. rewrite Z.add_0_r, Nat.add_0_r.
    repeat split; auto. lia.
  - destruct (on_error_few_clock rt)
      as (rt1 & Hrun & Hcount & Hlast & Hr & Hn & Hw); [lia |].
    destruct (IH rt1) as (rt' & Hrun' & Hcount' & Hr' & Hn' & Hlast' & Hw');
      [lia |].
    exists rt'. cbn [on_error_times]. unfold bind. rewrite Hrun, Hrun'.
    split; [reflexivity |]. split; [lia |]. split; [congruence |].
    split; [lia |]. split; [| congruence].
    intros _. destruct n as [| n].
    + cbn in Hrun'. injection Hrun' as <-. rewrite Hlast. f_equal. f_equal. lia.
    + rewrite Hlast' by lia. rewrite Hr, Hn. f_equal. f_equal. lia.
Qed.

Lemma on_error_times_snoc (n : nat) (rt : Runtime) :
  on_error_times (S n) rt
  = match on_error_times n rt with
    | (Return _, rt') => on_error rt'
    | (Raise e, rt') => (Raise e, rt')
    | (Exit c, rt') => (Exit c, rt')
    end.
Proof.
  revert rt. induction n as [| n IH]; intros rt.
  - cbn [on_error_times]. unfold bind, ret.
    destruct (on_error rt) as [[[] | e | c] rt']; reflexivity.
  - change (on_error_times (S (S n)) rt)
      with (bind on_error (fun _ => on_error_times (S n)) rt).
    unfold bind at 1. cbn [on_error_times]. unfold bind at 2.
    destruct (on_error rt) as [[[] | e | c] rt1]; try reflexivity.
    apply IH.
Qed.

(** Errors that come in a row, however fast: as long as the counter does
    not pass eleven, [on_error] comes back every time, the counter goes up
    by one per call and nothing is put on the wire.  From a counter of zero
    the first eleven errors are survived whatever the clock says. *)
Theorem on_error_times_survives (n : nat) (rt : Runtime) :
  error_count (self rt) + Z.of_nat n <= 11 ->
  exists rt',
    on_error_times n rt = (Return tt, rt')
    /\ error_count (self rt') = error_count (self rt) + Z.of_nat n
    /\ wire_calls (trace rt') = wire_calls (trace rt).
Proof.
  intros Hle.
  destruct (on_error_times_few n rt Hle)
    as (rt' & Hrun & Hcount & _ & _ & _ & Hw).
  eauto.
Qed.

(** The error that ends the process: when a run of errors has just brought
    the counter to eleven and the next one comes less than five seconds
    after the last, that call ends the process with exit code 1, the
    counter staying at eleven. *)
Theorem on_error_times_exits (n : nat) (rt : Runtime) :
  let c := clock rt in
  (0 < n)%nat ->
  error_count (self rt) + Z.of_nat n = 11 ->
  (readings c (reads c + n)%nat - readings c (reads c + n - 1)%nat < 5)%Q ->
  exists rt',
    on_error_times (S n) rt = (Exit 1, rt')
    /\ error_count (self rt') = 11
    /\ wire_calls (trace rt') = wire_calls (trace rt).
Proof.
  intros c Hn Hcount Hfast. subst c.
  destruct (on_error_times_few n rt)
    as (rt1 & Hrun & Hcount1 & Hr & Hreads & Hlast & Hw); [lia |].
  specialize (Hlast Hn).
  rewrite on_error_times_snoc, Hrun.
  destruct (on_error_storm rt1) as (rt' & Hexit & Hself & Hw').
  - lia.
  - unfold seconds_since_last_error. rewrite Hlast, Hr, Hreads. exact Hfast.
  - exists rt'. split; [exact Hexit |]. split; [rewrite Hself; lia | congruence].
Qed.

(** *** Inbound lines *)

Lemma pretrigger_of_account (b : Bot) (message : string) :
  "account-tag" ∉ enabled_capabilities b ->
  "extended-join" ∉ enabled_capabilities b ->
  tags (pretrigger_of b message) !! "account" = None.
Proof.
  intros H1 H2. unfold pretrigger_of.
  rewrite !bool_decide_eq_true_2 by assumption. cbn.
  apply lookup_delete_eq.
Qed.

(** What [on_message] does with a line, whatever the line: it records it
    as [last_raw_line] and of the state changes nothing else but the
    batches; it dispatches at most one pretrigger, the parsed line, as its
    last step and only when it returns; that pretrigger carries no [account]
    tag unless [account-tag] or [extended-join] is enabled; and it puts on
    the wire nothing, or the PONG for a PING, or the notice of an ERROR to
    the backend. *)
Theorem on_message_dispatches_once (message : string) (rt : Runtime) :
  let p := pretrigger_of (self rt) message in
  let r := on_message message rt in
  backend (self rt) <> None ->
  ("account-tag" ∉ enabled_capabilities (self rt) ->
   "extended-join" ∉ enabled_capabilities (self rt) ->
   tags p !! "account" = None)
  /\ exists post,
      trace (snd r) = trace rt ++ post
      /\ self (snd r)
         = set_batches (batches (self (snd r)))
             (set_last_raw_line message (self rt))
      /\ (dispatched post = []
          \/ dispatched post = [p] /\ fst r = Return tt
             /\ last post = Some (Dispatch p))
      /\ (wire_calls post = []
          \/ (event p = "PING"
              /\ exists token, last (args p) = Some token
                               /\ wire_calls post = [send_pong token])
          \/ (event p = "ERROR" /\ wire_calls post = [on_irc_error p])).
Proof.
  intros p r Hbe. split; [apply pretrigger_of_account |]. subst p r.
  unfold pretrigger_of, on_message, parse_line, make_identifier, Batch_new,
    BatchType_of, rbind in *. run.
  destruct (backend (self rt)); [clear Hbe | congruence]. cbn.
  destruct (_ && _); cbn.
  all: repeat case_innermost.
  all: rewrite <- ?app_assoc.
  all: first [ exists []; rewrite app_nil_r; split; [reflexivity |]
             | eexists; split; [reflexivity |] ].
  all: (split; [reflexivity |]).
  all: cbn.
  all: (split; [first [now left | right; repeat split; reflexivity] |]).
  all: first
         [ now left
         | right; left; split; [now apply String.eqb_eq |];
           eexists; split; [first [eassumption | reflexivity] | reflexivity]
         | right; right; split; [now apply String.eqb_eq | reflexivity] ].
Qed.

(** A PING outside a batch is answered before it is dispatched: the PONG
    carries the last argument, and then the PING itself goes to [dispatch].
    A PING without arguments raises IndexError, and nothing is sent or
    dispatched. *)
Theorem on_message_ping (message : string) (rt : Runtime) :
  let p := pretrigger_of (self rt) message in
  backend (self rt) <> None ->
  event p = "PING" ->
  tags p !! "batch" = None ->
  match last (args p) with
  | Some token =>
      on_message message rt
      = (Return tt,
         mkRuntime (set_last_raw_line message (self rt)) (clock rt)
           (trace rt ++ [Wire (send_pong token); Dispatch p]))
  | None =>
      on_message message rt
      = (Raise IndexError,
         mkRuntime (set_last_raw_line message (self rt)) (clock rt) (trace rt))
  end.
Proof.
  intros p Hbe Hping Htag.
  pose proof (pretrigger_of_fields (self rt) message) as (He & Ha & Ht).
  fold p in He, Ha, Ht. rewrite Ht in Htag. rewrite He in Hping.
  assert (Hbatch : String.eqb (event (parse_line (self rt) message)) "BATCH"
                   = false)
    by (rewrite Hping; reflexivity).
  apply String.eqb_eq in Hping.
  rewrite Ha.
  subst p. unfold pretrigger_of, on_message, parse_line, make_identifier in *. run.
  destruct (backend (self rt)); [clear Hbe | congruence]. cbn.
  destruct (_ && _); cbn; rewrite Hbatch; cbn;
    rewrite ?lookup_delete_ne by discriminate; rewrite Htag; cbn;
    rewrite Hping; cbn;
    (destruct (last (args _)); cbn; [rewrite <- app_assoc |]; reflexivity).
Qed.

(** A line tagged with a batch that is not open, or with a [batch] tag that
    has no value, is logged and dropped: the call returns, nothing is
    dispatched and nothing goes on the wire, so that a PING with such a tag
    gets no PONG. *)
Theorem on_message_unknown_batch (message : string) (rt : Runtime)
    (r : option string) :
  let p := pretrigger_of (self rt) message in
  backend (self rt) <> None ->
  event p <> "BATCH" ->
  tags p !! "batch" = Some r ->
  (forall ref, r = Some ref -> batches (self rt) !! ref = None) ->
  on_message message rt
  = (Return tt,
     mkRuntime (set_last_raw_line message (self rt)) (clock rt)
       (trace rt
        ++ [Log "sopel.irc" "error" "Received message in unknown batch: %r"])).
Proof.
  intros p Hbe Hbatch Htag Hunknown.
  pose proof (pretrigger_of_fields (self rt) message) as (He & Ha & Ht).
  fold p in He, Ha, Ht. rewrite Ht in Htag. rewrite He in Hbatch.
  apply String.eqb_neq in Hbatch.
  subst p. unfold pretrigger_of, on_message, parse_line, make_identifier in *. run.
  destruct (backend (self rt)); [clear Hbe | congruence]. cbn.
  destruct (_ && _); cbn; rewrite Hbatch; cbn;
    rewrite ?lookup_delete_ne by discriminate; rewrite Htag; cbn;
    (destruct r as [ref |]; cbn;
     [rewrite (Hunknown ref eq_refl); cbn;
      try rewrite bool_decide_eq_true_2 by reflexivity |]);
    reflexivity.
Qed.

(** Where [on_message] looks for the marker of a BATCH line: in the first
    character of the second argument, [args[1][0]].  A BATCH line with
    fewer than two arguments, or with an empty second one, raises
    IndexError; one whose second argument starts with neither [+] nor [-]
    is logged as malformed and dropped. *)
Theorem on_message_batch_marker (message : string) (rt : Runtime) :
  let p := pretrigger_of (self rt) message in
  backend (self rt) <> None ->
  event p = "BATCH" ->
  match args p !! 1%nat with
  | Some marker =>
      match Str.first marker with
      | Ok c =>
          c <> "+" -> c <> "-" ->
          on_message message rt
          = (Return tt,
             mkRuntime (set_last_raw_line message (self rt)) (clock rt)
               (trace rt
                ++ [Log "sopel.irc" "error"
                      "Received malformed BATCH message: %r"]))
      | Err _ =>
          on_message message rt
          = (Raise IndexError,
             mkRuntime (set_last_raw_line message (self rt)) (clock rt)
               (trace rt))
      end
  | None =>
      on_message message rt
      = (Raise IndexError,
         mkRuntime (set_last_raw_line message (self rt)) (clock rt) (trace rt))
  end.
Proof.
  intros p Hbe Hbatch.
  pose proof (pretrigger_of_fields (self rt) message) as (He & Ha & _).
  fold p in He, Ha. rewrite He in Hbatch. rewrite Ha.
  apply String.eqb_eq in Hbatch.
  subst p. unfold pretrigger_of, on_message, parse_line, make_identifier in *. run.
  destruct (backend (self rt)); [clear Hbe | congruence]. cbn.
  destruct (args _ !! 1%nat) as [marker |] eqn:Hargs;
    [destruct (Str.first marker) as [c | e] eqn:Hfirst;
     [intros Hplus Hminus; apply String.eqb_neq in Hplus, Hminus
     | pose proof (first_error _ _ Hfirst) as He'; subst e] |];
    (destruct (_ && _); cbn; rewrite Hbatch; cbn; rewrite ?Hargs; cbn;
     rewrite ?Hfirst; cbn; rewrite ?Hplus, ?Hminus; reflexivity).
Qed.

(** A BATCH line whose marker is [+] opens no batch: the name [Batch] that
    the branch calls is not bound in the module, so the call raises
    [NameError].  The line is recorded as [last_raw_line]; no batch is
    stored, and nothing is logged, sent or dispatched. *)
Theorem on_message_batch_open (message marker : string) (rt : Runtime) :
  let p := pretrigger_of (self rt) message in
  backend (self rt) <> None ->
  event p = "BATCH" ->
  args p !! 1%nat = Some marker ->
  Str.first marker = Ok "+" ->
  on_message message rt
  = (Raise (NameError "Batch"),
     mkRuntime (set_last_raw_line message (self rt)) (clock rt) (trace rt)).
Proof.
  intros p Hbe Hbatch Hargs Hfirst.
  pose proof (pretrigger_of_fields (self rt) message) as (He & Ha & _).
  fold p in He, Ha. rewrite He in Hbatch. rewrite Ha in Hargs.
  subst p. unfold pretrigger_of, on_message, parse_line, make_identifier in *. run.
  destruct (backend (self rt)); [clear Hbe | congruence]. cbn.
  destruct (_ && _); cbn; rewrite Hbatch; cbn; rewrite Hargs; cbn;
    rewrite Hfirst; reflexivity.
Qed.

(** [BatchType(value)] finds the member with that value, and a [Batch] that
    was built holds the reference [pretrigger[1][1:]], the type whose value
    is [pretrigger[2]], the parent it was given and no message. *)
Theorem Batch_new_fields (pretrigger : PreTrigger) (parent : option Batch)
    (batch : Batch) :
  Batch_new pretrigger parent = Ok batch ->
  (exists item1,
      PreTrigger_getitem pretrigger 1 = Ok item1
      /\ reference batch = Str.rest item1)
  /\ PreTrigger_getitem pretrigger 2 = Ok (BatchType_value (batchtype batch))
  /\ BatchType_of (BatchType_value (batchtype batch)) = Ok (batchtype batch)
  /\ Irc.parent batch = parent
  /\ messages batch = [].
Proof.
  unfold Batch_new, rbind.
  destruct (PreTrigger_getitem pretrigger 1) as [item1 |]; [| discriminate].
  destruct (PreTrigger_getitem pretrigger 2) as [item2 |]; [| discriminate].
  unfold BatchType_of.
  destruct (String.eqb_spec item2 "chathistory") as [-> |];
    [| destruct (String.eqb_spec item2 "netjoin") as [-> |];
       [| destruct (String.eqb_spec item2 "netsplit") as [-> |];
          [| discriminate]]];
    intros [= <-]; cbn; eauto 10.
Qed.

(** *** Outbound lines *)

Section Echo.
Variable core_log_raw : bool.
Variable core_bind_host : option string.
Variable str_upper : string -> string.

(** [on_message_sent] is local: it always returns, leaves the bot and the
    clock as they are and puts nothing on the wire.  With [echo-message]
    enabled it dispatches nothing; otherwise it dispatches the simulated
    echo, once, exactly when the upper-cased line starts with PRIVMSG or
    NOTICE.  The raw log gets its record only when [core.log_raw] is set. *)
Theorem on_message_sent_is_local (raw_line : string) (rt : Runtime) :
  let b := self rt in
  let r := on_message_sent core_log_raw core_bind_host str_upper raw_line rt in
  let echo :=
    PreTrigger_new (_nick b)
      (":" +:+ raw (_nick b) +:+ "!" +:+ _user b +:+ "@"
       +:+ echo_host core_bind_host b +:+ " " +:+ raw_line)
      (auto_url_schemes (settings b)) (make_identifier b) in
  fst r = Return tt
  /\ self (snd r) = b
  /\ clock (snd r) = clock rt
  /\ wire_calls (trace (snd r)) = wire_calls (trace rt)
  /\ dispatched (trace (snd r))
     = dispatched (trace rt)
       ++ (if bool_decide ("echo-message" ∈ enabled_capabilities b) then []
           else if String.prefix "PRIVMSG" (str_upper raw_line)
                   || String.prefix "NOTICE" (str_upper raw_line)
                then [echo] else [])
  /\ (core_log_raw = false ->
      forall logger level format,
        Log logger level format ∈ trace (snd r) ->
        Log logger level format ∈ trace rt).
Proof.
  cbv zeta. unfold on_message_sent, log_raw. run.
  destruct core_log_raw; cbn; rewrite bool_decide_not;
    (destruct (bool_decide ("echo-message" ∈ _)) eqn:Hecho;
     cbn [negb andb existsb]; rewrite ?Bool.orb_false_r);
    try destruct (_ || _); cbn;
    unfold dispatched, wire_calls; rewrite <- ?app_assoc, ?omap_app; cbn;
    rewrite ?app_nil_r; repeat split; try discriminate; auto.
  intros _ logger level format Hin.
  apply elem_of_app in Hin as [Hin | Hin]; [exact Hin |].
  apply list_elem_of_singleton in Hin. discriminate.
Qed.

End Echo.

(** *** Connection, shutdown and nick *)

(** The registration sequence of [on_connect]: CAP LS 302 first, then at most
    one PASS, then NICK and USER, and nothing else.  The PASS carries
    [auth_password] when [auth_method] is ["server"], else
    [server_auth_password] when [server_auth_method] is ["server"].  The
    state of the bot is not touched and nothing is dispatched. *)
Theorem on_connect_registration_order (rt : Runtime) :
  let b := self rt in
  let s := settings b in
  backend b <> None ->
  exists rt' pass,
    on_connect rt = (Return tt, rt')
    /\ self rt' = b
    /\ dispatched (trace rt') = dispatched (trace rt)
    /\ wire_calls (trace rt')
       = wire_calls (trace rt)
         ++ [send_command ["CAP"; "LS"; "302"] None]
         ++ pass
         ++ [send_nick (raw (_nick b)); send_user (_user b) "0" "*" (_name b)]
    /\ (auth_method s = Some "server" -> pass = [send_pass (auth_password s)])
    /\ (auth_method s <> Some "server" ->
        server_auth_method s = Some "server" ->
        pass = [send_pass (server_auth_password s)])
    /\ (auth_method s <> Some "server" ->
        server_auth_method s <> Some "server" -> pass = []).
Proof.
  intros b s Hbe. subst b s. unfold on_connect. run.
  destruct (backend (self rt)); [clear Hbe | congruence]. cbn.
  destruct (bool_decide (auth_method _ = _)) eqn:Hauth; cbn;
    [apply bool_decide_eq_true in Hauth;
     eexists; exists [send_pass (auth_password (settings (self rt)))]
    | apply bool_decide_eq_false in Hauth;
      destruct (bool_decide (server_auth_method _ = _)) eqn:Hserver; cbn;
      [apply bool_decide_eq_true in Hserver;
       eexists; exists [send_pass (server_auth_password (settings (self rt)))]
      | apply bool_decide_eq_false in Hserver; eexists; exists []]];
    (split; [reflexivity |]); cbn [self trace];
    unfold dispatched, wire_calls; rewrite <- !app_assoc, !omap_app; cbn;
    rewrite app_nil_r; repeat split; congruence.
Qed.

(** [restart] sets [wantsrestart] before it looks for the backend: without a
    backend the call raises, as [quit] does, but the flag stays set, where
    [quit] changes nothing; with a backend a single QUIT goes on the wire
    and both flags are set. *)
Theorem restart_sets_flag_first (message : option string) (rt : Runtime) :
  match backend (self rt) with
  | None =>
      restart message rt
      = (Raise backend_error,
         mkRuntime (set_wantsrestart true (self rt)) (clock rt) (trace rt))
      /\ quit message rt = (Raise backend_error, rt)
  | Some _ =>
      restart message rt
      = (Return tt,
         mkRuntime (set_hasquit true (set_wantsrestart true (self rt)))
           (clock rt) (trace rt ++ [Wire (send_quit message)]))
  end.
Proof.
  unfold restart, quit. run. cbn.
  destruct (backend (self rt)); [reflexivity | split; [reflexivity |]].
  now destruct rt.
Qed.

(** The nick methods.  [change_current_nick] raises without a backend and
    then leaves the nick alone; with one it sends a single NICK with the new
    name, and of the state changes the nick only, the settings being among
    what stays.  [rebuild_nick] keeps the name and sends nothing, and it
    changes nothing when run again or after [change_current_nick]. *)
Theorem nick_methods (new_nick : string) (rt : Runtime) :
  let after_change := snd (change_current_nick new_nick rt) in
  let after_rebuild := snd (rebuild_nick rt) in
  (backend (self rt) = None ->
   change_current_nick new_nick rt = (Raise backend_error, rt))
  /\ (backend (self rt) <> None ->
      fst (change_current_nick new_nick rt) = Return tt
      /\ self after_change
         = set__nick (make_identifier (self rt) new_nick) (self rt)
      /\ wire_calls (trace after_change)
         = wire_calls (trace rt) ++ [send_nick new_nick]
      /\ rebuild_nick after_change = (Return tt, after_change))
  /\ raw (_nick (self after_rebuild)) = raw (_nick (self rt))
  /\ trace after_rebuild = trace rt
  /\ rebuild_nick after_rebuild = (Return tt, after_rebuild).
Proof.
  cbv zeta. unfold change_current_nick, rebuild_nick. run. cbn.
  split; [intros ->; reflexivity |].
  split; [| repeat split].
  intros Hbe. destruct (backend (self rt)); [clear Hbe | congruence]. cbn.
  repeat split.
  unfold wire_calls. rewrite <- app_assoc, omap_app. reflexivity.
Qed.

End MoreIrcFacts.

(** ** The properties above on sample runs *)

Section SampleRuns.
Import Irc.

Lemma say_keeps_history_bounded_witness :
  let rt :=
    start (bot_having_sent 3 (replicate 10 "hi") 4) (ticking 1 1) in
  stack_bounded (self rt)
  /\ stack_bounded
       (self (snd (say "hello" "#chan" 1 EmptyString EmptyString rt))).
Proof.
  assert (Hb : stack_bounded
                 (self (start (bot_having_sent 3 (replicate 10 "hi") 4)
                          (ticking 1 1)))).
  { apply map_Forall_singleton. vm_compute. lia. }
  split; [exact Hb |].
  apply (say_keeps_history_bounded "hello" "#chan" EmptyString EmptyString 1).
  exact Hb.
Defined.

Lemma say_zero_division_needs_zero_length_witness :
  flood_text_length (settings (self (start drained_bot (ticking (1 # 2) 1))))
  = 0.
Proof.
  destruct (say_zero_division_needs_zero_length
              "hello" "#chan" EmptyString EmptyString 1
              (start drained_bot (ticking (1 # 2) 1)))
    as (_ & _ & Hlength).
  - vm_compute. reflexivity.
  - exact Hlength.
Defined.

Lemma say_zero_division_witness :
  fst (say "hello" "#chan" 1 EmptyString EmptyString
         (start drained_bot (ticking (1 # 2) 1)))
  = Raise ZeroDivisionError.
Proof.
  destruct (say_zero_division "hello" "#chan" EmptyString EmptyString 1
              (start drained_bot (ticking (1 # 2) 1)))
    as (rt' & Hrun & _).
  - discriminate.
  - vm_compute. reflexivity.
  - vm_compute. reflexivity.
  - reflexivity.
  - rewrite Hrun. reflexivity.
Defined.

Lemma cap_req_keeps_registry_consistent_witness :
  registry_consistent (self (after_cap_req "plugin_a" "=cap-a" None))
  /\ registry_consistent
       (self (snd (cap_req "plugin_b" "cap-a" None None None
                     (after_cap_req "plugin_a" "=cap-a" None)))).
Proof.
  assert (Hfresh : registry_consistent
                     (self (mkRuntime (init sample_settings)
                              (mkClock (fun _ => 0%Q) 0) []))).
  { constructor. }
  pose proof (cap_req_keeps_registry_consistent
                "plugin_a" "=cap-a" None None None _ Hfresh) as Hfirst.
  split; [exact Hfirst |].
  apply (cap_req_keeps_registry_consistent "plugin_b" "cap-a" None None None).
  exact Hfirst.
Defined.

Lemma cap_req_after_registration_witness :
  let rt :=
    start (registered_with (singleton "cap-a") (init sample_settings))
      (mkClock (fun _ => 0%Q) 0) in
  cap_req "plugin_a" "-cap-a" None None None rt
  = (Raise (Exception ERR_CAPABILITY_LATE), rt).
Proof.
  cbv zeta.
  apply (cap_req_after_registration "plugin_a" "-cap-a" "-" None None None).
  - reflexivity.
  - reflexivity.
  - constructor.
  - left. split; [reflexivity |].
    change ("cap-a" ∈ (singleton "cap-a" : gset string)).
    now apply elem_of_singleton_2.
Defined.

Lemma cap_req_unprefixed_shares_list_witness :
  let rt := after_cap_req "plugin_a" "=asl" None in
  let rt' := snd (cap_req "plugin_b" "sasl" None None None rt) in
  requests_for (self rt') "asl" = requests_for (self rt') "sasl"
  /\ length (requests_for (self rt') "sasl") = 2%nat.
Proof.
  cbv zeta.
  destruct (cap_req_unprefixed_shares_list
              "plugin_b" "sasl" "s" None None None
              (after_cap_req "plugin_a" "=asl" None))
    as (rt' & Hrun & Hlist & Hshared).
  - reflexivity.
  - discriminate.
  - discriminate.
  - apply cap_req_keeps_registry_ok. apply registry_ok_init.
  - repeat constructor.
  - left. reflexivity.
  - rewrite Hrun. cbn [snd]. split.
    + apply Hshared. eexists. reflexivity.
    + rewrite Hlist. reflexivity.
Defined.

Lemma on_error_times_survives_witness :
  fst (on_error_times 11 (start (init sample_settings) (ticking 0 0)))
  = Return tt.
Proof.
  destruct (on_error_times_survives 11
              (start (init sample_settings) (ticking 0 0)))
    as (rt' & Hrun & _).
  - cbn. lia.
  - rewrite Hrun. reflexivity.
Defined.

Lemma on_error_times_exits_witness :
  fst (on_error_times 12 (start (init sample_settings) (ticking 0 1))) = Exit 1.
Proof.
  destruct (on_error_times_exits 11
              (start (init sample_settings) (ticking 0 1)))
    as (rt' & Hrun & _).
  - lia.
  - reflexivity.
  - vm_compute. reflexivity.
  - rewrite Hrun. reflexivity.
Defined.

Lemma on_message_dispatches_once_witness :
  let line := "@account=alice :nick!u@h PRIVMSG #chan :hello" in
  tags (pretrigger_of (TF := ArgsFactory) (self running) line) !! "account"
  = None.
Proof.
  cbv zeta.
  destruct (on_message_dispatches_once (TF := ArgsFactory)
              "@account=alice :nick!u@h PRIVMSG #chan :hello" running)
    as [Haccount _].
  - discriminate.
  - apply Haccount; apply not_elem_of_empty.
Defined.

Lemma on_message_ping_witness :
  on_message (TF := SampleFactory) "PING :token" running
  = (Return tt,
     mkRuntime (set_last_raw_line "PING :token" (self running)) (clock running)
       (trace running
        ++ [Wire (send_pong "token");
            Dispatch (pretrigger_of (TF := SampleFactory) (self running)
                        "PING :token")])).
Proof.
  apply (on_message_ping (TF := SampleFactory) "PING :token" running).
  - discriminate.
  - reflexivity.
  - reflexivity.
Defined.

Lemma on_message_unknown_batch_witness :
  let line := "@batch=ref1 :nick!u@h PRIVMSG #chan :hello" in
  on_message (TF := SampleFactory) line running
  = (Return tt,
     mkRuntime (set_last_raw_line line (self running)) (clock running)
       (trace running
        ++ [Log "sopel.irc" "error" "Received message in unknown batch: %r"])).
Proof.
  cbv zeta.
  apply (on_message_unknown_batch (TF := SampleFactory)
           "@batch=ref1 :nick!u@h PRIVMSG #chan :hello" running (Some "ref1")).
  - discriminate.
  - vm_compute. discriminate.
  - reflexivity.
  - intros ref _. reflexivity.
Defined.

Lemma on_message_batch_marker_witness :
  let line := "BATCH +ref1 chathistory" in
  on_message (TF := ArgsFactory) line running
  = (Return tt,
     mkRuntime (set_last_raw_line line (self running)) (clock running)
       (trace running
        ++ [Log "sopel.irc" "error" "Received malformed BATCH message: %r"])).
Proof.
  cbv zeta.
  assert (Hbe : backend (self running) <> None) by discriminate.
  pose proof (on_message_batch_marker (TF := ArgsFactory)
                "BATCH +ref1 chathistory" running Hbe eq_refl) as Hrun.
  vm_compute in Hrun. apply Hrun; discriminate.
Defined.

Lemma on_message_batch_open_witness :
  let line := "BATCH * +ref1 chathistory" in
  on_message (TF := ArgsFactory) line running
  = (Raise (NameError "Batch"),
     mkRuntime (set_last_raw_line line (self running)) (clock running)
       (trace running)).
Proof.
  cbv zeta.
  apply (on_message_batch_open (TF := ArgsFactory)
           "BATCH * +ref1 chathistory" "+ref1" running).
  - discriminate.
  - reflexivity.
  - reflexivity.
  - reflexivity.
Defined.

Lemma Batch_new_fields_witness :
  PreTrigger_getitem (TriggerFactory := ArgsFactory)
    (batch_pretrigger "BATCH * +ref1 chathistory") 2
  = Ok "chathistory".
Proof.
  destruct (Batch_new_fields (TF := ArgsFactory)
              (batch_pretrigger "BATCH * +ref1 chathistory") None
              (mkBatch "ref1" CHATHISTORY None []) eq_refl)
    as (_ & Htype & _).
  exact Htype.
Defined.

Lemma on_connect_registration_order_witness :
  wire_calls (trace (snd (on_connect running)))
  = [send_command ["CAP"; "LS"; "302"] None;
     send_nick "bot";
     send_user "b" "0" "*" "Sopel"].
Proof.
  destruct (on_connect_registration_order running)
    as (rt' & pass & Hrun & _ & _ & Hwire & _ & _ & Hnone).
  - discriminate.
  - rewrite Hrun. cbn [snd]. rewrite Hwire, Hnone by discriminate. reflexivity.
Defined.

End SampleRuns.
